(** * GF(p^12) arithmetic of the bn256 pairing library (gfp12.go)

    A shallow embedding of [gfp12.go]: the degree-12 extension field used as
    the target group of the optimal-ate pairing, built as a quadratic
    extension [x*w + y] (w^2 = tau) of the sextic field GF(p^6).

    The three lower towers GF(p), GF(p^2) and GF(p^6) are not part of
    [gfp12.go]; they are modelled below as far as [gfp12.go] calls them. *)

From Stdlib Require Import ZArith NArith Nnat PeanoNat Lia List Bool Ring.
From Stdlib Require Import Zmod.
Import ListNotations.

#[local] Open Scope Z_scope.

(** ** Parameters of the tower *)

(** Modelled from the spec: the field size, the two non-residues and the
    "precomputed constants ... equal to the non-residue xi raised to the
    stated fractional powers" are fixed data owned by the lower towers,
    outside [gfp12.go].  [tw_p] is the modulus of the base field, [tw_beta]
    the square of the generator [i] of GF(p^2) and [tw_xi_i * i + tw_xi_1]
    the sextic non-residue xi.  The constant table keeps the three names used
    by [gfp12.go]; the two further entries per family are the ones the sextic
    field needs for its own Frobenius maps.  A GF(p^2) entry is the pair of
    its [i] and unit coordinates. *)
Class Tower := {
  tw_p : Z;
  tw_beta : Z;
  tw_xi_i : Z;
  tw_xi_1 : Z;
  tw_xiToPMinus1Over6 : Z * Z;
  tw_xiToPMinus1Over3 : Z * Z;
  tw_xiTo2PMinus2Over3 : Z * Z;
  tw_xiToPSquaredMinus1Over6 : Z;
  tw_xiToPSquaredMinus1Over3 : Z;
  tw_xiTo2PSquaredMinus2Over3 : Z
}.

(** ** The base field GF(p) *)

Module GFp.
Section Defs.
Context {T : Tower}.

(** Modelled from the spec: "prime-field residue, fixed-width integer
      modulo p".  An element is a reduced residue; the four 64-bit limbs of
      the Go type are abstracted to the integer they encode. *)
Definition gfP : Type := Zmod tw_p.

Definition zero : gfP := Zmod.zero.
Definition one : gfP := Zmod.one.
Definition Add (a b : gfP) : gfP := Zmod.add a b.
Definition Sub (a b : gfP) : gfP := Zmod.sub a b.
Definition Neg (a : gfP) : gfP := Zmod.opp a.
Definition Mul (a b : gfP) : gfP := Zmod.mul a b.
Definition eqb (a b : gfP) : bool := Zmod.eqb a b.

(** The literal [gfP{l0, l1, l2, l3}] of the Go source: four little-endian
      64-bit limbs holding the Montgomery form [v * 2^256 mod p] of the
      residue [v]. *)
Definition ofLimbs (l0 l1 l2 l3 : Z) : gfP :=
    Zmod.of_Z tw_p
      ((l0 + 2 ^ 64 * l1 + 2 ^ 128 * l2 + 2 ^ 192 * l3)
       * Z.invmod (2 ^ 256) tw_p).
End Defs.
End GFp.

(** ** The quadratic extension GF(p^2) *)

Module GFp2.
Section Defs.
Context {T : Tower}.
#[local] Abbreviation gfP := GFp.gfP.

(** Modelled from the spec: "pair over the base field with its own
      add/sub/mul/square/invert/Frobenius and a multiply by non-residue xi
      operation".  The field names come from the literal [gfP2{x: .., y: ..}]
      in [gfp12.go]; the value is [x*i + y] with [i^2 = beta]. *)
Record gfP2 : Type := mk { x : gfP; y : gfP }.

Definition Set_ (a : gfP2) : gfP2 := {| x := x a; y := y a |}.
Definition SetZero : gfP2 := {| x := GFp.zero; y := GFp.zero |}.
Definition SetOne : gfP2 := {| x := GFp.zero; y := GFp.one |}.
Definition Add (a b : gfP2) : gfP2 :=
    {| x := GFp.Add (x a) (x b); y := GFp.Add (y a) (y b) |}.
Definition Sub (a b : gfP2) : gfP2 :=
    {| x := GFp.Sub (x a) (x b); y := GFp.Sub (y a) (y b) |}.
Definition Neg (a : gfP2) : gfP2 :=
    {| x := GFp.Neg (x a); y := GFp.Neg (y a) |}.

(** [(ax*i + ay) * (bx*i + by)] with [i^2 = beta]. *)
Definition Mul (a b : gfP2) : gfP2 :=
    {| x := GFp.Add (GFp.Mul (x a) (y b)) (GFp.Mul (y a) (x b));
       y := GFp.Add (GFp.Mul (y a) (y b))
                    (GFp.Mul (Zmod.of_Z tw_p tw_beta) (GFp.Mul (x a) (x b))) |}.
Definition Square (a : gfP2) : gfP2 := Mul a a.

(** Multiplication by a bare base-field scalar. *)
Definition MulScalar (a : gfP2) (b : gfP) : gfP2 :=
    {| x := GFp.Mul (x a) b; y := GFp.Mul (y a) b |}.

(** The sextic non-residue and multiplication by it. *)
Definition xi : gfP2 :=
    {| x := Zmod.of_Z tw_p tw_xi_i; y := Zmod.of_Z tw_p tw_xi_1 |}.
Definition MulXi (a : gfP2) : gfP2 := Mul a xi.

(** The Frobenius map of GF(p^2) over GF(p): [i] goes to [-i]. *)
Definition Conjugate (a : gfP2) : gfP2 :=
    {| x := GFp.Neg (x a); y := y a |}.

Definition eqb (a b : gfP2) : bool :=
    GFp.eqb (x a) (x b) && GFp.eqb (y a) (y b).

End Defs.
End GFp2.

(** ** The constant table *)

Module Consts.
Section Defs.
Context {T : Tower}.

Definition ofPair (c : Z * Z) : GFp2.gfP2 :=
    {| GFp2.x := Zmod.of_Z tw_p (fst c); GFp2.y := Zmod.of_Z tw_p (snd c) |}.

Definition xiToPMinus1Over6 : GFp2.gfP2 := ofPair tw_xiToPMinus1Over6.
Definition xiToPMinus1Over3 : GFp2.gfP2 := ofPair tw_xiToPMinus1Over3.
Definition xiTo2PMinus2Over3 : GFp2.gfP2 := ofPair tw_xiTo2PMinus2Over3.
Definition xiToPSquaredMinus1Over6 : GFp.gfP :=
    Zmod.of_Z tw_p tw_xiToPSquaredMinus1Over6.
Definition xiToPSquaredMinus1Over3 : GFp.gfP :=
    Zmod.of_Z tw_p tw_xiToPSquaredMinus1Over3.
Definition xiTo2PSquaredMinus2Over3 : GFp.gfP :=
    Zmod.of_Z tw_p tw_xiTo2PSquaredMinus2Over3.
End Defs.
End Consts.

(** ** The sextic extension GF(p^6) *)

Module GFp6.
Section Defs.
Context {T : Tower}.
#[local] Abbreviation gfP := GFp.gfP.
#[local] Abbreviation gfP2 := GFp2.gfP2.

(** Modelled from the spec: "built as a further tower over the quadratic
      extension, exposing add/sub/mul/square/invert/Frobenius-at-p/p^2/p^4,
      multiply by tau and multiply by a bare base-field scalar".  The field
      names come from the literal [gfP6{x: .., y: .., z: ..}] in [gfp12.go];
      the value is [x*tau^2 + y*tau + z].  The Frobenius comment of
      [gfp12.go] gives [w^6 = xi] for the generator [w] of GF(p^12), and
      [w^2 = tau], hence [tau^3 = xi]. *)
Record gfP6 : Type := mk { x : gfP2; y : gfP2; z : gfP2 }.

Definition Set_ (a : gfP6) : gfP6 :=
    {| x := GFp2.Set_ (x a); y := GFp2.Set_ (y a); z := GFp2.Set_ (z a) |}.
Definition SetZero : gfP6 :=
    {| x := GFp2.SetZero; y := GFp2.SetZero; z := GFp2.SetZero |}.
Definition SetOne : gfP6 :=
    {| x := GFp2.SetZero; y := GFp2.SetZero; z := GFp2.SetOne |}.
Definition Neg (a : gfP6) : gfP6 :=
    {| x := GFp2.Neg (x a); y := GFp2.Neg (y a); z := GFp2.Neg (z a) |}.
Definition Add (a b : gfP6) : gfP6 :=
    {| x := GFp2.Add (x a) (x b); y := GFp2.Add (y a) (y b);
       z := GFp2.Add (z a) (z b) |}.
Definition Sub (a b : gfP6) : gfP6 :=
    {| x := GFp2.Sub (x a) (x b); y := GFp2.Sub (y a) (y b);
       z := GFp2.Sub (z a) (z b) |}.

(** The product of [ax*tau^2 + ay*tau + az] and [bx*tau^2 + by*tau + bz],
      reduced with [tau^3 = xi]. *)
Definition Mul (a b : gfP6) : gfP6 :=
    {| x := GFp2.Add (GFp2.Add (GFp2.Mul (x a) (z b)) (GFp2.Mul (y a) (y b)))
                     (GFp2.Mul (z a) (x b));
       y := GFp2.Add (GFp2.Add (GFp2.Mul (y a) (z b)) (GFp2.Mul (z a) (y b)))
                     (GFp2.MulXi (GFp2.Mul (x a) (x b)));
       z := GFp2.Add (GFp2.Mul (z a) (z b))
                     (GFp2.MulXi (GFp2.Add (GFp2.Mul (x a) (y b))
                                           (GFp2.Mul (y a) (x b)))) |}.
Definition Square (a : gfP6) : gfP6 := Mul a a.

Definition MulScalar (a : gfP6) (b : gfP2) : gfP6 :=
    {| x := GFp2.Mul (x a) b; y := GFp2.Mul (y a) b; z := GFp2.Mul (z a) b |}.
Definition MulGFP (a : gfP6) (b : gfP) : gfP6 :=
    {| x := GFp2.MulScalar (x a) b; y := GFp2.MulScalar (y a) b;
       z := GFp2.MulScalar (z a) b |}.

(** [(x*tau^2 + y*tau + z) * tau = y*tau^2 + z*tau + xi*x]. *)
Definition MulTau (a : gfP6) : gfP6 :=
    {| x := y a; y := z a; z := GFp2.MulXi (x a) |}.

(** The p-power map: conjugate every coordinate, then twist [tau^2] and
      [tau] by the matching powers of xi. *)
Definition Frobenius (a : gfP6) : gfP6 :=
    {| x := GFp2.Mul (GFp2.Conjugate (x a)) Consts.xiTo2PMinus2Over3;
       y := GFp2.Mul (GFp2.Conjugate (y a)) Consts.xiToPMinus1Over3;
       z := GFp2.Conjugate (z a) |}.
(** The p^2-power map fixes the GF(p^2) coordinates. *)
Definition FrobeniusP2 (a : gfP6) : gfP6 :=
    {| x := GFp2.MulScalar (x a) Consts.xiTo2PSquaredMinus2Over3;
       y := GFp2.MulScalar (y a) Consts.xiToPSquaredMinus1Over3;
       z := GFp2.Set_ (z a) |}.
Definition FrobeniusP4 (a : gfP6) : gfP6 :=
    {| x := GFp2.MulScalar (x a) Consts.xiToPSquaredMinus1Over3;
       y := GFp2.MulScalar (y a) Consts.xiTo2PSquaredMinus2Over3;
       z := GFp2.Set_ (z a) |}.

Definition eqb (a b : gfP6) : bool :=
    GFp2.eqb (x a) (x b) && GFp2.eqb (y a) (y b) && GFp2.eqb (z a) (z b).
Definition IsZero (a : gfP6) : bool := eqb a SetZero.
Definition IsOne (a : gfP6) : bool := eqb a SetOne.
End Defs.
End GFp6.

(** ** GF(p^12): gfp12.go *)

Module GFp12.
Section Defs.
Context {T : Tower}.
#[local] Abbreviation gfP2 := GFp2.gfP2.
#[local] Abbreviation gfP6 := GFp6.gfP6.

(** [type gfP12 struct { x, y gfP6 }], value [x*w + y] with [w^2 = tau]. *)
Record gfP12 : Type := mk { x : gfP6; y : gfP6 }.

(** The Go methods mutate their receiver [e] and return it; here each one
      is the function from its operands to the value left in [e].  The
      in-place versions are in module [InPlace] below. *)

Definition Set_ (a : gfP12) : gfP12 :=
    {| x := GFp6.Set_ (x a); y := GFp6.Set_ (y a) |}.
Definition SetZero : gfP12 := {| x := GFp6.SetZero; y := GFp6.SetZero |}.
Definition SetOne : gfP12 := {| x := GFp6.SetZero; y := GFp6.SetOne |}.
Definition IsZero (e : gfP12) : bool :=
    GFp6.IsZero (x e) && GFp6.IsZero (y e).
Definition IsOne (e : gfP12) : bool :=
    GFp6.IsZero (x e) && GFp6.IsOne (y e).

Definition Conjugate (a : gfP12) : gfP12 :=
    {| x := GFp6.Neg (x a); y := GFp6.Set_ (y a) |}.
Definition Neg (a : gfP12) : gfP12 :=
    {| x := GFp6.Neg (x a); y := GFp6.Neg (y a) |}.

Definition Frobenius (a : gfP12) : gfP12 :=
    let ex := GFp6.Frobenius (x a) in
    let ey := GFp6.Frobenius (y a) in
    let ex := GFp6.MulScalar ex Consts.xiToPMinus1Over6 in
    {| x := ex; y := ey |}.
Definition FrobeniusP2 (a : gfP12) : gfP12 :=
    let ex := GFp6.FrobeniusP2 (x a) in
    let ex := GFp6.MulGFP ex Consts.xiToPSquaredMinus1Over6 in
    let ey := GFp6.FrobeniusP2 (y a) in
    {| x := ex; y := ey |}.
Definition FrobeniusP4 (a : gfP12) : gfP12 :=
    let ex := GFp6.FrobeniusP4 (x a) in
    let ex := GFp6.MulGFP ex Consts.xiToPSquaredMinus1Over3 in
    let ey := GFp6.FrobeniusP4 (y a) in
    {| x := ex; y := ey |}.

Definition Add (a b : gfP12) : gfP12 :=
    {| x := GFp6.Add (x a) (x b); y := GFp6.Add (y a) (y b) |}.
Definition Sub (a b : gfP12) : gfP12 :=
    {| x := GFp6.Sub (x a) (x b); y := GFp6.Sub (y a) (y b) |}.

Definition Mul (a b : gfP12) : gfP12 :=
    let tx := GFp6.Mul (x a) (y b) in
    let t := GFp6.Mul (x b) (y a) in
    let tx := GFp6.Add tx t in
    let ty := GFp6.Mul (y a) (y b) in
    let t := GFp6.MulTau (GFp6.Mul (x a) (x b)) in
    {| x := GFp6.Set_ tx; y := GFp6.Add ty t |}.

Definition MulScalar (a : gfP12) (b : gfP6) : gfP12 :=
    {| x := GFp6.Mul (x a) b; y := GFp6.Mul (y a) b |}.

Definition Square (a : gfP12) : gfP12 :=
    let v0 := GFp6.Mul (x a) (y a) in
    let t := GFp6.MulTau (x a) in
    let t := GFp6.Add (y a) t in
    let ty := GFp6.Add (x a) (y a) in
    let ty := GFp6.Sub (GFp6.Mul ty t) v0 in
    let t := GFp6.MulTau v0 in
    let ty := GFp6.Sub ty t in
    {| x := GFp6.Add v0 v0; y := GFp6.Set_ ty |}.

(** [power.BitLen()] and [power.Bit(i)] of [math/big]: the length of the
      absolute value, and the bit of the two's complement representation. *)
Definition BitLen (power : Z) : nat :=
    match power with
    | Z0 => O
    | Zpos q | Zneg q => Pos.size_nat q
    end.
Definition Bit (power : Z) (i : nat) : bool := Z.testbit power (Z.of_nat i).

(** The loop of [Exp]: [k] is [i + 1] for the loop variable [i], which
      runs from [BitLen - 1] down to [0]. *)
Fixpoint ExpLoop (a : gfP12) (power : Z) (k : nat) (sum : gfP12) : gfP12 :=
    match k with
    | O => sum
    | S i =>
        let t := Square sum in
        let sum := if Bit power i then Mul t a else Set_ t in
        ExpLoop a power i sum
    end.
Definition Exp (a : gfP12) (power : Z) : gfP12 :=
    let sum := SetOne in
    let sum := ExpLoop a power (BitLen power) sum in
    Set_ sum.

(** [gfP4Square(retX, retY, x, y)]: the pair [(retX, retY)] it leaves. *)
Definition gfP4Square (x y : gfP2) : gfP2 * gfP2 :=
    let t1 := GFp2.Square x in
    let t2 := GFp2.Square y in
    let retX := GFp2.Add x y in
    let retX := GFp2.Square retX in
    let retX := GFp2.Sub retX t1 in
    let retX := GFp2.Sub retX t2 in
    let retY := GFp2.MulXi t1 in
    let retY := GFp2.Add retY t2 in
    (retX, retY).

Definition SquareCyclo6 (a : gfP12) : gfP12 :=
    let '(t11, t00) := gfP4Square (GFp6.y (x a)) (GFp6.z (y a)) in
    let '(t12, t01) := gfP4Square (GFp6.x (y a)) (GFp6.z (x a)) in
    let '(t02, t10) := gfP4Square (GFp6.x (x a)) (GFp6.y (y a)) in
    let f00 := GFp2.MulXi t02 in
    let t02 := GFp2.Set_ t10 in
    let t10 := GFp2.Set_ f00 in
    let f00 := GFp2.Add t00 t00 in
    let t00 := GFp2.Add f00 t00 in
    let f00 := GFp2.Add t01 t01 in
    let t01 := GFp2.Add f00 t01 in
    let f00 := GFp2.Add t02 t02 in
    let t02 := GFp2.Add f00 t02 in
    let f00 := GFp2.Add t10 t10 in
    let t10 := GFp2.Add f00 t10 in
    let f00 := GFp2.Add t11 t11 in
    let t11 := GFp2.Add f00 t11 in
    let f00 := GFp2.Add t12 t12 in
    let t12 := GFp2.Add f00 t12 in
    let f00 := GFp2.Add (GFp6.z (y a)) (GFp6.z (y a)) in
    let f00 := GFp2.Neg f00 in
    let f01 := GFp2.Add (GFp6.y (y a)) (GFp6.y (y a)) in
    let f01 := GFp2.Neg f01 in
    let f02 := GFp2.Add (GFp6.x (y a)) (GFp6.x (y a)) in
    let f02 := GFp2.Neg f02 in
    let f10 := GFp2.Add (GFp6.z (x a)) (GFp6.z (x a)) in
    let f11 := GFp2.Add (GFp6.y (x a)) (GFp6.y (x a)) in
    let f12 := GFp2.Add (GFp6.x (x a)) (GFp6.x (x a)) in
    let f00 := GFp2.Add f00 t00 in
    let f01 := GFp2.Add f01 t01 in
    let f02 := GFp2.Add f02 t02 in
    let f10 := GFp2.Add f10 t10 in
    let f11 := GFp2.Add f11 t11 in
    let f12 := GFp2.Add f12 t12 in
    let tmp := {| x := {| GFp6.x := f12; GFp6.y := f11; GFp6.z := f10 |};
                  y := {| GFp6.x := f02; GFp6.y := f01; GFp6.z := f00 |} |} in
    Set_ tmp.

Definition powToVCyclo6 (a : gfP12) : gfP12 :=
    let t0 := SquareCyclo6 a in
    let t0 := SquareCyclo6 t0 in
    let t0 := SquareCyclo6 t0 in
    let t1 := SquareCyclo6 t0 in
    let t1 := SquareCyclo6 t1 in
    let t1 := SquareCyclo6 t1 in
    let t2 := Conjugate t0 in
    let t2 := Mul t2 a in
    let t2 := Mul t2 t1 in
    let t2 := SquareCyclo6 t2 in
    let t2 := SquareCyclo6 t2 in
    let t2 := SquareCyclo6 t2 in
    let t2 := SquareCyclo6 t2 in
    let t2 := SquareCyclo6 t2 in
    let t2 := SquareCyclo6 t2 in
    let t2 := SquareCyclo6 t2 in
    let t2 := Mul t2 a in
    let t2 := SquareCyclo6 t2 in
    let t2 := SquareCyclo6 t2 in
    let t2 := SquareCyclo6 t2 in
    let t2 := SquareCyclo6 t2 in
    let t2 := SquareCyclo6 t2 in
    let t2 := SquareCyclo6 t2 in
    let t2 := SquareCyclo6 t2 in
    let t2 := SquareCyclo6 t2 in
    Mul t2 a.

Definition PowToUCyclo6 (a : gfP12) : gfP12 :=
    let e := powToVCyclo6 a in
    let e := powToVCyclo6 e in
    let e := powToVCyclo6 e in
    e.

(** [Invert] calls the inversion of GF(p^6), which is outside [gfp12.go]
      and is taken as the parameter [inv6]. *)
Definition Invert (inv6 : gfP6 -> gfP6) (a : gfP12) : gfP12 :=
    let t1 := GFp6.Square (x a) in
    let t2 := GFp6.Square (y a) in
    let t1 := GFp6.MulTau t1 in
    let t1 := GFp6.Sub t2 t1 in
    let t2 := inv6 t1 in
    let e := {| x := GFp6.Neg (x a); y := GFp6.Set_ (y a) |} in
    MulScalar e t2.

Definition eqb (a b : gfP12) : bool :=
    GFp6.eqb (x a) (x b) && GFp6.eqb (y a) (y b).
End Defs.
End GFp12.

(** ** The curve of the library *)

Module BN256.
(** Modelled from the spec: "a single curve-specific integer exponent
      u = v^3" with v = 1868033; the modulus is the Barreto-Naehrig prime of
      that parameter, [i^2 = -1] and [xi = i + 3]. *)
Definition u : Z := 1868033 ^ 3.
Definition p : Z := 36 * u ^ 4 + 36 * u ^ 3 + 24 * u ^ 2 + 6 * u + 1.

Definition tower : Tower :=
    {| tw_p := p; tw_beta := -1; tw_xi_i := 1; tw_xi_1 := 3;
       tw_xiToPMinus1Over6 :=
         (8669379979083712429711189836753509758585994370025260553045152614783263110636,
          19998038925833620163537568958541907098007303196759855091367510456613536016040);
       tw_xiToPMinus1Over3 :=
         (26098034838977895781559542626833399156321265654106457577426020397262786167059,
          15931493369629630809226283458085260090334794394361662678240713231519278691715);
       tw_xiTo2PMinus2Over3 :=
         (19885131339612776214803633203834694332692106372356013117629940868870585019582,
          21645619881471562101905880913352894726728173167203616652430647841922248593627);
       tw_xiToPSquaredMinus1Over6 :=
         65000549695646603727810655408050771481677621702948236658134783353303381437753;
       tw_xiToPSquaredMinus1Over3 :=
         65000549695646603727810655408050771481677621702948236658134783353303381437752;
       tw_xiTo2PSquaredMinus2Over3 :=
         4985783334309134261147736404674766913742361673560802634030 |}.

#[local] Existing Instance tower.

(** [var gfP12Gen *gfP12] of [gfp12.go]. *)
Definition gfP12Gen : GFp12.gfP12 :=
    {| GFp12.x :=
         {| GFp6.x :=
              {| GFp2.x := GFp.ofLimbs 0x62d608d6bb67a4fb 0x9a66ec93f0c2032f 0x5391628e924e1a34 0x2162dbf7de801d0e;
                 GFp2.y := GFp.ofLimbs 0x3e0c1a72bf08eb4f 0x4972ec05990a5ecc 0xf7b9a407ead8007e 0x3ca04c613572ce49 |};
            GFp6.y :=
              {| GFp2.x := GFp.ofLimbs 0xace536a5607c910e 0xda93774a941ddd40 0x5de0e9853b7593ad 0xe05bb926f513153;
                 GFp2.y := GFp.ofLimbs 0x3f4c99f8abaf1a22 0x66d5f6121f86dc33 0x8e0a82f68a50abba 0x819927d1eebd0695 |};
            GFp6.z :=
              {| GFp2.x := GFp.ofLimbs 0x7cdef49c5477faa 0x40eb71ffedaa199d 0xbc896661f17c9b8f 0x3144462983c38c02;
                 GFp2.y := GFp.ofLimbs 0xcd09ee8dd8418013 0xf8d050d05faa9b11 0x589e90a555507ee1 0x58e4ab25f9c49c15 |} |};
       GFp12.y :=
         {| GFp6.x :=
              {| GFp2.x := GFp.ofLimbs 0x7e76809b142d020b 0xd9949d1b2822e995 0x3de93d974f84b076 0x144523477028928d;
                 GFp2.y := GFp.ofLimbs 0x79952799f9ef4b0 0x4102c47aa3df01c6 0xfa82a633c53da2e1 0x54c3f0392f9f7e0e |};
            GFp6.y :=
              {| GFp2.x := GFp.ofLimbs 0xd3432a335533272b 0xa008fbbdc7d74f4a 0x68e3c81eb7295ed9 0x17fe34c21fdecef2;
                 GFp2.y := GFp.ofLimbs 0xfb0bc4c0ef6df55f 0x8bdc585b70bc2120 0x17d498d2cb720def 0x2a368248319b899c |};
            GFp6.z :=
              {| GFp2.x := GFp.ofLimbs 0xf8487d81cb354c6c 0x7421be69f1522caa 0x6940c778b9fb2d54 0x7da4b04e102bb621;
                 GFp2.y := GFp.ofLimbs 0x97b91989993e7be4 0x8526545356eab684 0xb050073022eb1892 0x658b432ad09939c0 |} |} |}.
(** The element [-1], of norm one and of order two. *)
Definition minusOne : GFp12.gfP12 := GFp12.Neg GFp12.SetOne.

(** The generator [w] of GF(p^12) over GF(p^6). *)
Definition omega : GFp12.gfP12 := {| GFp12.x := GFp6.SetOne; GFp12.y := GFp6.SetZero |}.

Definition ofZ2 (cx cy : Z) : GFp2.gfP2 :=
  {| GFp2.x := Zmod.of_Z tw_p cx; GFp2.y := Zmod.of_Z tw_p cy |}.

(** An element of order 13 of the cyclotomic subgroup. *)
Definition order13 : GFp12.gfP12 :=
  {| GFp12.x :=
       {| GFp6.x := ofZ2 35262463398504449776084695965853652696158917744872561798231604983630781451083
                         35570124577631472550027713360971685847181478673557831058134626116023238262601;
          GFp6.y := ofZ2 53338199290574757699864798618845879059158603278481777425541056475816403493299
                         30921503324410194942741013403704407985086155039109259272997886144399494599023;
          GFp6.z := ofZ2 28490442709616140912915081139449296149253904896731116792276160502391569983085
                         61611628786758865657432909560149423738233364994164291956782357612521828093606 |};
     GFp12.y :=
       {| GFp6.x := ofZ2 34567304903983750644337973100784377671536184297832350408666649549874006013261
                         257977920602909926824585759142900194581279728533291996542581322192343285212;
          GFp6.y := ofZ2 7216132522732246941704223613939813098636695320952416872984426528113843276483
                         46025191825692228887997049798925426223012403760383393559735538628893377563674;
          GFp6.z := ofZ2 41424214224061832754134312556133965314819496817810288752528487588065386705042
                         37916987322460518844131255933043278349981458896113418750261667932337440708540 |} |}.
End BN256.

(** ** Vocabulary of the properties *)

Section Vocabulary.
Context {T : Tower}.

(** A base-field scalar acts as the element [0*i + b]. *)
Definition embed (b : GFp.gfP) : GFp2.gfP2 :=
  {| GFp2.x := GFp.zero; GFp2.y := b |}.

(** The element tau = [0*tau^2 + 1*tau + 0]. *)
Definition tau6 : GFp6.gfP6 :=
  {| GFp6.x := GFp2.SetZero; GFp6.y := GFp2.SetOne; GFp6.z := GFp2.SetZero |}.

Definition pow (a : GFp12.gfP12) (n : N) : GFp12.gfP12 :=
  N.iter n (GFp12.Mul a) GFp12.SetOne.

(** The sixth-power twist constants: [xiToPSquaredMinus1Over6] is a
    primitive sixth root of unity in the base field and the other two
    entries are its second and fourth powers. *)
Definition twist_table_ok : Prop :=
  GFp.Add (GFp.Mul Consts.xiToPSquaredMinus1Over6 Consts.xiToPSquaredMinus1Over6)
          GFp.one
  = Consts.xiToPSquaredMinus1Over6
  /\ Consts.xiToPSquaredMinus1Over3
     = GFp.Mul Consts.xiToPSquaredMinus1Over6 Consts.xiToPSquaredMinus1Over6
  /\ Consts.xiTo2PSquaredMinus2Over3
     = GFp.Mul Consts.xiToPSquaredMinus1Over3 Consts.xiToPSquaredMinus1Over3.

Definition norm_one (a : GFp12.gfP12) : Prop :=
  GFp12.Mul (GFp12.Conjugate a) a = GFp12.SetOne.

Definition cyclotomic (a : GFp12.gfP12) : Prop :=
  norm_one a /\ GFp12.Mul (GFp12.FrobeniusP4 a) a = GFp12.FrobeniusP2 a.

Definition norm2 (g : GFp2.gfP2) : GFp2.gfP2 := GFp2.Mul g (GFp2.Conjugate g).

Definition cube2 (g : GFp2.gfP2) : GFp2.gfP2 := GFp2.Mul g (GFp2.Mul g g).

(** The norm of [xiToPMinus1Over6] down to the base field is a sixth root
    of unity whose cube is [-1]; the norms of the two other entries are
    cube roots of unity. *)
Definition frobenius_table_ok : Prop :=
  cube2 (norm2 Consts.xiToPMinus1Over6) = GFp2.Neg GFp2.SetOne
  /\ cube2 (norm2 Consts.xiToPMinus1Over3) = GFp2.SetOne
  /\ cube2 (norm2 Consts.xiTo2PMinus2Over3) = GFp2.SetOne.

End Vocabulary.

(** ** The addition chain of the specification *)

Module Chain.
Section Defs.
Context {T : Tower}.
(** The addition chain of the fixed-exponent power as the specification
    words it: cyclotomic squarings in runs of 3, 3, 7 and 8. *)
Definition cyclosquare (k : nat) (a : GFp12.gfP12) : GFp12.gfP12 :=
  Nat.iter k GFp12.SquareCyclo6 a.
Definition t0 (a : GFp12.gfP12) : GFp12.gfP12 := cyclosquare 3 a.
Definition t1 (a : GFp12.gfP12) : GFp12.gfP12 := cyclosquare 3 (t0 a).
Definition t2_57 (a : GFp12.gfP12) : GFp12.gfP12 :=
  GFp12.Mul (GFp12.Mul (GFp12.Conjugate (t0 a)) a) (t1 a).
Definition t2_7296 (a : GFp12.gfP12) : GFp12.gfP12 := cyclosquare 7 (t2_57 a).
Definition t2_7297 (a : GFp12.gfP12) : GFp12.gfP12 := GFp12.Mul (t2_7296 a) a.
Definition t2_1868032 (a : GFp12.gfP12) : GFp12.gfP12 := cyclosquare 8 (t2_7297 a).
Definition pow_to_v (a : GFp12.gfP12) : GFp12.gfP12 := GFp12.Mul (t2_1868032 a) a.
End Defs.
End Chain.

(** * The methods as in-place updates *)

Module InPlace.
Section Defs.
Context {T : Tower}.

(** The store holds GF(p^6) values.  A [*gfP12] is the index [e] of an object
    whose [x] field is cell [2e] and whose [y] field is cell [2e+1], so two
    objects are the same or disjoint; a [*gfP6] is a cell and may point into
    an object. *)
Definition heap : Type := nat -> GFp6.gfP6.
Definition fx (e : nat) : nat := (2 * e)%nat.
Definition fy (e : nat) : nat := (2 * e + 1)%nat.
Definition upd (h : heap) (l : nat) (v : GFp6.gfP6) : heap :=
  fun l' => if Nat.eqb l' l then v else h l'.
Definition load (h : heap) (e : nat) : GFp12.gfP12 :=
  {| GFp12.x := h (fx e); GFp12.y := h (fy e) |}.

(** A source operand is an object of the store, or a fresh temporary such as
    [&gfP12{}], which no pointer aliases. *)
Inductive operand12 : Type :=
| Obj (a : nat)
| Tmp (v : GFp12.gfP12).
Inductive operand6 : Type :=
| Cell (l : nat)
| Tmp6 (v : GFp6.gfP6).

Definition rdx (h : heap) (a : operand12) : GFp6.gfP6 :=
  match a with Obj a => h (fx a) | Tmp v => GFp12.x v end.
Definition rdy (h : heap) (a : operand12) : GFp6.gfP6 :=
  match a with Obj a => h (fy a) | Tmp v => GFp12.y v end.
Definition rd (h : heap) (a : operand12) : GFp12.gfP12 :=
  {| GFp12.x := rdx h a; GFp12.y := rdy h a |}.
Definition rd6 (h : heap) (b : operand6) : GFp6.gfP6 :=
  match b with Cell l => h l | Tmp6 v => v end.

(** Each method below runs the statements of the Go method in order on the
    store; a call [e.x.F(&a.x)] of the sextic field reads its operands and
    then writes [e.x]. *)

Definition Set_ (e : nat) (a : operand12) (h : heap) : heap :=
  let h := upd h (fx e) (GFp6.Set_ (rdx h a)) in
  let h := upd h (fy e) (GFp6.Set_ (rdy h a)) in
  h.

Definition SetZero (e : nat) (h : heap) : heap :=
  let h := upd h (fx e) GFp6.SetZero in
  let h := upd h (fy e) GFp6.SetZero in
  h.

Definition SetOne (e : nat) (h : heap) : heap :=
  let h := upd h (fx e) GFp6.SetZero in
  let h := upd h (fy e) GFp6.SetOne in
  h.

Definition Conjugate (e : nat) (a : operand12) (h : heap) : heap :=
  let h := upd h (fx e) (GFp6.Neg (rdx h a)) in
  let h := upd h (fy e) (GFp6.Set_ (rdy h a)) in
  h.

Definition Neg (e : nat) (a : operand12) (h : heap) : heap :=
  let h := upd h (fx e) (GFp6.Neg (rdx h a)) in
  let h := upd h (fy e) (GFp6.Neg (rdy h a)) in
  h.

Definition Frobenius (e : nat) (a : operand12) (h : heap) : heap :=
  let h := upd h (fx e) (GFp6.Frobenius (rdx h a)) in
  let h := upd h (fy e) (GFp6.Frobenius (rdy h a)) in
  let h := upd h (fx e) (GFp6.MulScalar (h (fx e)) Consts.xiToPMinus1Over6) in
  h.

Definition FrobeniusP2 (e : nat) (a : operand12) (h : heap) : heap :=
  let h := upd h (fx e) (GFp6.FrobeniusP2 (rdx h a)) in
  let h := upd h (fx e) (GFp6.MulGFP (h (fx e)) Consts.xiToPSquaredMinus1Over6) in
  let h := upd h (fy e) (GFp6.FrobeniusP2 (rdy h a)) in
  h.

Definition FrobeniusP4 (e : nat) (a : operand12) (h : heap) : heap :=
  let h := upd h (fx e) (GFp6.FrobeniusP4 (rdx h a)) in
  let h := upd h (fx e) (GFp6.MulGFP (h (fx e)) Consts.xiToPSquaredMinus1Over3) in
  let h := upd h (fy e) (GFp6.FrobeniusP4 (rdy h a)) in
  h.

Definition Add (e : nat) (a b : operand12) (h : heap) : heap :=
  let h := upd h (fx e) (GFp6.Add (rdx h a) (rdx h b)) in
  let h := upd h (fy e) (GFp6.Add (rdy h a) (rdy h b)) in
  h.

Definition Sub (e : nat) (a b : operand12) (h : heap) : heap :=
  let h := upd h (fx e) (GFp6.Sub (rdx h a) (rdx h b)) in
  let h := upd h (fy e) (GFp6.Sub (rdy h a) (rdy h b)) in
  h.

Definition Mul (e : nat) (a b : operand12) (h : heap) : heap :=
  let tx := GFp6.Mul (rdx h a) (rdy h b) in
  let t := GFp6.Mul (rdx h b) (rdy h a) in
  let tx := GFp6.Add tx t in
  let ty := GFp6.Mul (rdy h a) (rdy h b) in
  let t := GFp6.MulTau (GFp6.Mul (rdx h a) (rdx h b)) in
  let h := upd h (fx e) (GFp6.Set_ tx) in
  let h := upd h (fy e) (GFp6.Add ty t) in
  h.

Definition MulScalar (e : nat) (a : operand12) (b : operand6) (h : heap) : heap :=
  let h := upd h (fx e) (GFp6.Mul (rdx h a) (rd6 h b)) in
  let h := upd h (fy e) (GFp6.Mul (rdy h a) (rd6 h b)) in
  h.

Definition Square (e : nat) (a : operand12) (h : heap) : heap :=
  let v0 := GFp6.Mul (rdx h a) (rdy h a) in
  let t := GFp6.MulTau (rdx h a) in
  let t := GFp6.Add (rdy h a) t in
  let ty := GFp6.Add (rdx h a) (rdy h a) in
  let ty := GFp6.Sub (GFp6.Mul ty t) v0 in
  let t := GFp6.MulTau v0 in
  let ty := GFp6.Sub ty t in
  let h := upd h (fx e) (GFp6.Add v0 v0) in
  let h := upd h (fy e) (GFp6.Set_ ty) in
  h.

(** [SquareCyclo6] fills the temporary [tmp] from the coordinates of [a] and
    ends with [e.Set(tmp)]; [GFp12.SquareCyclo6] is that copy of [tmp]. *)
Definition SquareCyclo6 (e : nat) (a : operand12) (h : heap) : heap :=
  let tmp := GFp12.SquareCyclo6 (rd h a) in
  let h := upd h (fx e) (GFp12.x tmp) in
  let h := upd h (fy e) (GFp12.y tmp) in
  h.

(** [Exp] works on the temporaries [sum] and [t] and ends with [c.Set(sum)]. *)
Definition Exp (c : nat) (a : operand12) (power : Z) (h : heap) : heap :=
  let sum := GFp12.ExpLoop (rd h a) power (GFp12.BitLen power) GFp12.SetOne in
  Set_ c (Tmp sum) h.

(** [powToVCyclo6] works on the temporaries [t0], [t1], [t2] and writes [e]
    only in its last statement [e.Mul(t2, a)]. *)
Definition powToVCyclo6 (e : nat) (a : operand12) (h : heap) : heap :=
  let t0 := GFp12.SquareCyclo6 (rd h a) in
  let t0 := GFp12.SquareCyclo6 t0 in
  let t0 := GFp12.SquareCyclo6 t0 in
  let t1 := GFp12.SquareCyclo6 t0 in
  let t1 := GFp12.SquareCyclo6 t1 in
  let t1 := GFp12.SquareCyclo6 t1 in
  let t2 := GFp12.Conjugate t0 in
  let t2 := GFp12.Mul t2 (rd h a) in
  let t2 := GFp12.Mul t2 t1 in
  let t2 := GFp12.SquareCyclo6 t2 in
  let t2 := GFp12.SquareCyclo6 t2 in
  let t2 := GFp12.SquareCyclo6 t2 in
  let t2 := GFp12.SquareCyclo6 t2 in
  let t2 := GFp12.SquareCyclo6 t2 in
  let t2 := GFp12.SquareCyclo6 t2 in
  let t2 := GFp12.SquareCyclo6 t2 in
  let t2 := GFp12.Mul t2 (rd h a) in
  let t2 := GFp12.SquareCyclo6 t2 in
  let t2 := GFp12.SquareCyclo6 t2 in
  let t2 := GFp12.SquareCyclo6 t2 in
  let t2 := GFp12.SquareCyclo6 t2 in
  let t2 := GFp12.SquareCyclo6 t2 in
  let t2 := GFp12.SquareCyclo6 t2 in
  let t2 := GFp12.SquareCyclo6 t2 in
  let t2 := GFp12.SquareCyclo6 t2 in
  Mul e (Tmp t2) a h.

Definition PowToUCyclo6 (e : nat) (a : operand12) (h : heap) : heap :=
  let h := powToVCyclo6 e a h in
  let h := powToVCyclo6 e (Obj e) h in
  let h := powToVCyclo6 e (Obj e) h in
  h.

Definition Invert (inv6 : GFp6.gfP6 -> GFp6.gfP6) (e : nat) (a : operand12)
    (h : heap) : heap :=
  let t1 := GFp6.Square (rdx h a) in
  let t2 := GFp6.Square (rdy h a) in
  let t1 := GFp6.MulTau t1 in
  let t1 := GFp6.Sub t2 t1 in
  let t2 := inv6 t1 in
  let h := upd h (fx e) (GFp6.Neg (rdx h a)) in
  let h := upd h (fy e) (GFp6.Set_ (rdy h a)) in
  MulScalar e (Obj e) (Tmp6 t2) h.
End Defs.
End InPlace.

(** ** An inversion of GF(p^6) by norms *)

Module NormInv.
Section Defs.
Context {T : Tower}.

(** Used to instantiate the inversion parameter of [GFp12.Invert]: an
    element is inverted through its norm to the subfield, down to the
    modular inverse of the base field. *)
Definition inv2 (a : GFp2.gfP2) : GFp2.gfP2 :=
  let n := GFp.Sub (GFp.Mul (GFp2.y a) (GFp2.y a))
                   (GFp.Mul (Zmod.of_Z tw_p tw_beta)
                            (GFp.Mul (GFp2.x a) (GFp2.x a))) in
  let i := Zmod.inv n in
  {| GFp2.x := GFp.Mul (GFp.Neg (GFp2.x a)) i; GFp2.y := GFp.Mul (GFp2.y a) i |}.

Definition inv6 (a : GFp6.gfP6) : GFp6.gfP6 :=
  let x := GFp6.x a in
  let y := GFp6.y a in
  let z := GFp6.z a in
  let A := GFp2.Sub (GFp2.Square z) (GFp2.MulXi (GFp2.Mul x y)) in
  let B := GFp2.Sub (GFp2.MulXi (GFp2.Square x)) (GFp2.Mul y z) in
  let C := GFp2.Sub (GFp2.Square y) (GFp2.Mul x z) in
  let F := GFp2.Add (GFp2.Add (GFp2.MulXi (GFp2.Mul C y)) (GFp2.Mul A z))
                    (GFp2.MulXi (GFp2.Mul B x)) in
  let F := inv2 F in
  {| GFp6.x := GFp2.Mul C F; GFp6.y := GFp2.Mul B F; GFp6.z := GFp2.Mul A F |}.

(** Bounded quantification over the finitely many elements of a tower. *)
Definition forall_gfP (f : GFp.gfP -> bool) : bool :=
  forallb f (Zmod.elements tw_p).
Definition forall_gfP2 (f : GFp2.gfP2 -> bool) : bool :=
  forall_gfP (fun x => forall_gfP (fun y => f (GFp2.mk x y))).
Definition forall_gfP6 (f : GFp6.gfP6 -> bool) : bool :=
  forall_gfP2 (fun x => forall_gfP2 (fun y => forall_gfP2 (fun z =>
    f (GFp6.mk x y z)))).
Definition inv6_check (n : GFp6.gfP6) : bool :=
  GFp6.eqb n GFp6.SetZero || GFp6.eqb (GFp6.Mul (inv6 n) n) GFp6.SetOne.
Definition tau_check (r : GFp6.gfP6) : bool :=
  negb (GFp6.eqb (GFp6.Square r) (GFp6.MulTau GFp6.SetOne)).
End Defs.
End NormInv.

(** ** A small tower: p = 5, i^2 = 2, xi = i + 2 *)

Module Toy5.
(** GF(5^12) built the same way; the sixth-power twist constants do not
    exist in GF(5) and are left at zero. *)
Definition tower : Tower :=
  {| tw_p := 5; tw_beta := 2; tw_xi_i := 1; tw_xi_1 := 2;
     tw_xiToPMinus1Over6 := (0, 0);
     tw_xiToPMinus1Over3 := (0, 0);
     tw_xiTo2PMinus2Over3 := (0, 0);
     tw_xiToPSquaredMinus1Over6 := 0;
     tw_xiToPSquaredMinus1Over3 := 0;
     tw_xiTo2PSquaredMinus2Over3 := 0 |}.
End Toy5.

(** ** Further vocabulary: the twist constants of the p-power map *)

Section FrobeniusVocabulary.
Context {T : Tower}.

Definition pow6_2 (g : GFp2.gfP2) : GFp2.gfP2 :=
  GFp2.Mul (cube2 g) (cube2 g).

(** [xiToPMinus1Over3] and [xiTo2PMinus2Over3] are the second and fourth
    powers of [xiToPMinus1Over6], whose sixth power carries xi to its
    conjugate. *)
Definition frobenius_powers_ok : Prop :=
  Consts.xiToPMinus1Over3
  = GFp2.Mul Consts.xiToPMinus1Over6 Consts.xiToPMinus1Over6
  /\ Consts.xiTo2PMinus2Over3
     = GFp2.Mul Consts.xiToPMinus1Over3 Consts.xiToPMinus1Over3
  /\ GFp2.Mul (pow6_2 Consts.xiToPMinus1Over6) GFp2.xi = GFp2.Conjugate GFp2.xi.

(** The norm of [xiToPMinus1Over6] is the base-field constant
    [xiToPSquaredMinus1Over6]. *)
Definition frobenius_norm_ok : Prop :=
  norm2 Consts.xiToPMinus1Over6 = embed Consts.xiToPSquaredMinus1Over6.
End FrobeniusVocabulary.

(** * Theorems *)

(** * Algebra of the tower *)

Section Algebra.
Context {T : Tower}.

Add Ring gfP_ring : (Zmod.ring_theory tw_p).

(** ** GF(p^2) is a commutative ring *)

Ltac unfold_gfP :=
    cbv [GFp.Add GFp.Sub GFp.Neg GFp.Mul GFp.zero GFp.one] in *.
Ltac unfold_gfP2 :=
    cbv [GFp2.Add GFp2.Sub GFp2.Neg GFp2.Mul GFp2.Square GFp2.MulXi
         GFp2.MulScalar GFp2.Conjugate GFp2.SetZero GFp2.SetOne GFp2.Set_
         GFp2.xi GFp2.x GFp2.y] in *.
Ltac gfP2_crush :=
    intros;
    repeat match goal with a : GFp2.gfP2 |- _ => destruct a end;
    unfold_gfP2; unfold_gfP; f_equal; ring.

Lemma gfP2_ring_theory :
    ring_theory GFp2.SetZero GFp2.SetOne GFp2.Add GFp2.Mul GFp2.Sub GFp2.Neg eq.
Proof. constructor; gfP2_crush. Qed.

Add Ring gfP2_ring : gfP2_ring_theory.

Lemma gfP2_Set_id a : GFp2.Set_ a = a.
Proof. destruct a; reflexivity. Qed.

Lemma gfP2_Square_Mul a : GFp2.Square a = GFp2.Mul a a.
Proof. reflexivity. Qed.

Lemma gfP2_MulXi_Mul a : GFp2.MulXi a = GFp2.Mul GFp2.xi a.
Proof. unfold GFp2.MulXi; ring. Qed.

Lemma gfP2_MulScalar_Mul a b : GFp2.MulScalar a b = GFp2.Mul (embed b) a.
Proof. unfold embed; gfP2_crush. Qed.

(** ** GF(p^6) is a commutative ring *)

Ltac unfold_gfP6 :=
    cbv [GFp6.Add GFp6.Sub GFp6.Neg GFp6.Mul GFp6.Square GFp6.MulTau
         GFp6.MulScalar GFp6.MulGFP GFp6.SetZero GFp6.SetOne GFp6.Set_
         GFp6.Frobenius GFp6.FrobeniusP2 GFp6.FrobeniusP4
         GFp6.x GFp6.y GFp6.z] in *.
Ltac gfP6_crush :=
    intros;
    repeat match goal with a : GFp6.gfP6 |- _ => destruct a end;
    unfold_gfP6; rewrite ?gfP2_Set_id, ?gfP2_MulXi_Mul, ?gfP2_Square_Mul,
                         ?gfP2_MulScalar_Mul;
    f_equal; ring.

Lemma gfP6_ring_theory :
    ring_theory GFp6.SetZero GFp6.SetOne GFp6.Add GFp6.Mul GFp6.Sub GFp6.Neg eq.
Proof. constructor; gfP6_crush. Qed.

Add Ring gfP6_ring : gfP6_ring_theory.

Lemma gfP6_Set_id a : GFp6.Set_ a = a.
Proof. destruct a; cbv [GFp6.Set_ GFp6.x GFp6.y GFp6.z];
         rewrite !gfP2_Set_id; reflexivity. Qed.

Lemma gfP6_Square_Mul a : GFp6.Square a = GFp6.Mul a a.
Proof. reflexivity. Qed.

Lemma gfP6_MulTau_Mul a : GFp6.MulTau a = GFp6.Mul tau6 a.
Proof. unfold tau6; gfP6_crush. Qed.

(** ** GF(p^12) is a commutative ring *)

Ltac unfold_gfP12 :=
    cbv [GFp12.Add GFp12.Sub GFp12.Neg GFp12.Mul GFp12.Square GFp12.MulScalar
         GFp12.Conjugate GFp12.SetZero GFp12.SetOne GFp12.Set_
         GFp12.x GFp12.y] in *.
Ltac gfP12_crush :=
    intros;
    repeat match goal with a : GFp12.gfP12 |- _ => destruct a end;
    unfold_gfP12; rewrite ?gfP6_Set_id, ?gfP6_MulTau_Mul, ?gfP6_Square_Mul;
    f_equal; ring.

Lemma gfP12_ring_theory :
    ring_theory GFp12.SetZero GFp12.SetOne GFp12.Add GFp12.Mul GFp12.Sub
                GFp12.Neg eq.
Proof. constructor; gfP12_crush. Qed.

Add Ring gfP12_ring : gfP12_ring_theory.

Lemma gfP12_Set_id a : GFp12.Set_ a = a.
Proof. destruct a; cbv [GFp12.Set_ GFp12.x GFp12.y];
         rewrite !gfP6_Set_id; reflexivity. Qed.

Lemma Square_Mul a : GFp12.Square a = GFp12.Mul a a.
Proof. gfP12_crush. Qed.

Lemma MulScalar_Mul a b :
    GFp12.MulScalar a b = GFp12.Mul a {| GFp12.x := GFp6.SetZero; GFp12.y := b |}.
Proof. gfP12_crush. Qed.

(** ** Powers and the generic exponentiation *)

Lemma pow_0 a : pow a 0 = GFp12.SetOne.
Proof. reflexivity. Qed.

Lemma pow_succ a n : pow a (N.succ n) = GFp12.Mul a (pow a n).
Proof. unfold pow; now rewrite N.iter_succ. Qed.

Lemma pow_1 a : pow a 1 = a.
Proof. change 1%N with (N.succ 0); rewrite pow_succ, pow_0; ring. Qed.

Lemma pow_add a m n : pow a (m + n) = GFp12.Mul (pow a m) (pow a n).
Proof.
    induction m as [|m IH] using N.peano_ind.
    - rewrite N.add_0_l, pow_0; ring.
    - rewrite N.add_succ_l, !pow_succ, IH; ring.
Qed.

Lemma pow_one n : pow GFp12.SetOne n = GFp12.SetOne.
Proof.
    induction n as [|n IH] using N.peano_ind; [reflexivity|].
    rewrite pow_succ, IH; ring.
Qed.

Lemma pow_Mul a b n : pow (GFp12.Mul a b) n = GFp12.Mul (pow a n) (pow b n).
Proof.
    induction n as [|n IH] using N.peano_ind.
    - rewrite !pow_0; ring.
    - rewrite !pow_succ, IH; ring.
Qed.

Lemma pow_mul a m n : pow a (m * n) = pow (pow a m) n.
Proof.
    induction n as [|n IH] using N.peano_ind.
    - now rewrite N.mul_0_r, !pow_0.
    - rewrite N.mul_succ_r, pow_add, pow_succ, IH; ring.
Qed.

Lemma pow_2 a : pow a 2 = GFp12.Mul a a.
Proof. change 2%N with (1 + 1)%N; now rewrite pow_add, pow_1. Qed.

Lemma BitLen_bound power : 0 <= power -> power < 2 ^ Z.of_nat (GFp12.BitLen power).
Proof.
    destruct power as [|q|q]; intros H; [reflexivity| |lia].
    cbn [GFp12.BitLen]. induction q as [q IH|q IH|]; cbn [Pos.size_nat].
    - rewrite Nat2Z.inj_succ, Z.pow_succ_r by lia. specialize (IH ltac:(lia)). lia.
    - rewrite Nat2Z.inj_succ, Z.pow_succ_r by lia. specialize (IH ltac:(lia)). lia.
    - reflexivity.
Qed.

Lemma mod_pow2_succ power (i : nat) :
    power mod 2 ^ Z.of_nat (S i)
    = (if GFp12.Bit power i then 2 ^ Z.of_nat i else 0) + power mod 2 ^ Z.of_nat i.
Proof.
    rewrite Nat2Z.inj_succ, Z.pow_succ_r, Z.mul_comm by lia.
    rewrite Z.rem_mul_r by lia.
    unfold GFp12.Bit. rewrite Z.testbit_eqb by lia.
    assert (Hb : 0 <= (power / 2 ^ Z.of_nat i) mod 2 < 2) by (apply Z.mod_pos_bound; lia).
    destruct (Z.eqb_spec ((power / 2 ^ Z.of_nat i) mod 2) 1) as [E|E]; lia.
Qed.

Lemma ExpLoop_pow a power k sum :
    GFp12.ExpLoop a power k sum
    = GFp12.Mul (pow sum (Z.to_N (2 ^ Z.of_nat k)))
                (pow a (Z.to_N (power mod 2 ^ Z.of_nat k))).
Proof.
    revert sum; induction k as [|i IH]; intros sum.
    - cbn [GFp12.ExpLoop]. change (2 ^ Z.of_nat 0) with 1. rewrite Z.mod_1_r.
      change (Z.to_N 1) with 1%N. change (Z.to_N 0) with 0%N.
      rewrite pow_1, pow_0. ring.
    - cbn [GFp12.ExpLoop]. rewrite IH, mod_pow2_succ.
      assert (Hp : 0 < 2 ^ Z.of_nat i) by (apply Z.pow_pos_nonneg; lia).
      assert (Hm : 0 <= power mod 2 ^ Z.of_nat i) by (apply Z.mod_pos_bound; lia).
      replace (Z.to_N (2 ^ Z.of_nat (S i))) with (2 * Z.to_N (2 ^ Z.of_nat i))%N
        by (rewrite Nat2Z.inj_succ, Z.pow_succ_r by lia; lia).
      rewrite (pow_mul sum), pow_2.
      destruct (GFp12.Bit power i).
      + rewrite Z2N.inj_add, pow_add, Square_Mul, pow_Mul by lia. ring.
      + rewrite gfP12_Set_id, Square_Mul, Z.add_0_l. ring.
Qed.

Lemma Exp_pow a power :
    0 <= power -> GFp12.Exp a power = pow a (Z.to_N power).
Proof.
    intros H. unfold GFp12.Exp. rewrite gfP12_Set_id, ExpLoop_pow, pow_one.
    rewrite Z.mod_small by (split; [assumption | now apply BitLen_bound]).
    ring.
Qed.

(** ** The Frobenius maps of order dividing six *)

Lemma embed_Mul a b : embed (GFp.Mul a b) = GFp2.Mul (embed a) (embed b).
Proof. unfold embed; gfP2_crush. Qed.

Lemma embed_Add a b : embed (GFp.Add a b) = GFp2.Add (embed a) (embed b).
Proof. unfold embed; gfP2_crush. Qed.

Lemma embed_one : embed GFp.one = GFp2.SetOne.
Proof. reflexivity. Qed.

Ltac unfold_tower :=
    cbv [GFp12.Add GFp12.Sub GFp12.Neg GFp12.Mul GFp12.Square GFp12.MulScalar
         GFp12.Conjugate GFp12.SetZero GFp12.SetOne GFp12.Set_
         GFp12.Frobenius GFp12.FrobeniusP2 GFp12.FrobeniusP4
         GFp12.SquareCyclo6 GFp12.gfP4Square GFp12.x GFp12.y
         GFp6.Add GFp6.Sub GFp6.Neg GFp6.Mul GFp6.Square GFp6.MulTau
         GFp6.MulScalar GFp6.MulGFP GFp6.SetZero GFp6.SetOne GFp6.Set_
         GFp6.Frobenius GFp6.FrobeniusP2 GFp6.FrobeniusP4
         GFp6.x GFp6.y GFp6.z] in *;
    rewrite ?gfP2_Set_id, ?gfP2_MulXi_Mul, ?gfP2_Square_Mul, ?gfP2_MulScalar_Mul in *.

Ltac split12 :=
    match goal with
    | |- GFp12.mk _ _ = GFp12.mk _ _ => f_equal; split12
    | |- GFp6.mk _ _ _ = GFp6.mk _ _ _ => f_equal; split12
    | _ => idtac
    end.

Section Twist.
Hypothesis Htab : twist_table_ok.

Let c := embed Consts.xiToPSquaredMinus1Over6.

Lemma twist_c2 : GFp2.Mul c c = GFp2.Sub c GFp2.SetOne.
Proof.
      destruct Htab as (H1 & _). subst c.
      set (C := Consts.xiToPSquaredMinus1Over6) in *.
      assert (E : GFp2.Add (GFp2.Mul (embed C) (embed C)) GFp2.SetOne = embed C)
        by (rewrite <- embed_Mul, <- embed_one, <- embed_Add; now f_equal).
      rewrite <- E at 3. ring.
Qed.

Lemma twist_B : embed Consts.xiToPSquaredMinus1Over3 = GFp2.Mul c c.
Proof. destruct Htab as (_ & H2 & _). subst c. now rewrite H2, embed_Mul. Qed.

Lemma twist_A :
      embed Consts.xiTo2PSquaredMinus2Over3 = GFp2.Mul (GFp2.Mul c c) (GFp2.Mul c c).
Proof.
      destruct Htab as (_ & _ & H3). rewrite H3, embed_Mul, twist_B. reflexivity.
Qed.

Ltac twist_crush :=
      intros;
      repeat match goal with a : GFp12.gfP12 |- _ => destruct a end;
      repeat match goal with a : GFp6.gfP6 |- _ => destruct a end;
      unfold_tower; rewrite ?twist_A, ?twist_B; fold c;
      split12; ring [twist_c2].

Lemma FrobeniusP2_Mul a b :
      GFp12.FrobeniusP2 (GFp12.Mul a b)
      = GFp12.Mul (GFp12.FrobeniusP2 a) (GFp12.FrobeniusP2 b).
Proof. twist_crush. Qed.

Lemma FrobeniusP4_Mul a b :
      GFp12.FrobeniusP4 (GFp12.Mul a b)
      = GFp12.Mul (GFp12.FrobeniusP4 a) (GFp12.FrobeniusP4 b).
Proof. twist_crush. Qed.

Lemma FrobeniusP4_FrobeniusP2 a :
      GFp12.FrobeniusP4 (GFp12.FrobeniusP2 a) = GFp12.Conjugate a.
Proof. twist_crush. Qed.

Lemma FrobeniusP2_FrobeniusP2 a :
      GFp12.FrobeniusP2 (GFp12.FrobeniusP2 a) = GFp12.FrobeniusP4 a.
Proof. twist_crush. Qed.

Lemma SquareCyclo6_Square_gap a :
      GFp12.Add (GFp12.SquareCyclo6 a)
                (GFp12.Add (GFp12.Conjugate a) (GFp12.Conjugate a))
      = GFp12.Add (GFp12.Square a)
          (GFp12.Add
             (GFp12.Mul (GFp12.FrobeniusP4 a) (GFp12.FrobeniusP4 (GFp12.FrobeniusP4 a)))
             (GFp12.Mul (GFp12.FrobeniusP4 a) (GFp12.FrobeniusP4 (GFp12.FrobeniusP4 a)))).
Proof. twist_crush. Qed.

Lemma SquareCyclo6_Square a : cyclotomic a -> GFp12.SquareCyclo6 a = GFp12.Square a.
Proof.
      intros [_ Hf].
      assert (E : GFp12.Mul (GFp12.FrobeniusP4 a) (GFp12.FrobeniusP4 (GFp12.FrobeniusP4 a))
                  = GFp12.Conjugate a).
      { rewrite <- (FrobeniusP4_FrobeniusP2 a), <- Hf, FrobeniusP4_Mul. ring. }
      pose proof (SquareCyclo6_Square_gap a) as G. rewrite E in G.
      transitivity (GFp12.Sub
                      (GFp12.Add (GFp12.SquareCyclo6 a)
                                 (GFp12.Add (GFp12.Conjugate a) (GFp12.Conjugate a)))
                      (GFp12.Add (GFp12.Conjugate a) (GFp12.Conjugate a))); [ring|].
      rewrite G. ring.
Qed.

(** *** The cyclotomic subgroup is closed under the group operations *)

Lemma Conjugate_Mul a b :
      GFp12.Conjugate (GFp12.Mul a b)
      = GFp12.Mul (GFp12.Conjugate a) (GFp12.Conjugate b).
Proof. gfP12_crush. Qed.

Lemma Conjugate_Conjugate a : GFp12.Conjugate (GFp12.Conjugate a) = a.
Proof. gfP12_crush. Qed.

Lemma Conjugate_FrobeniusP2 a :
      GFp12.Conjugate (GFp12.FrobeniusP2 a) = GFp12.FrobeniusP2 (GFp12.Conjugate a).
Proof. twist_crush. Qed.

Lemma Conjugate_FrobeniusP4 a :
      GFp12.Conjugate (GFp12.FrobeniusP4 a) = GFp12.FrobeniusP4 (GFp12.Conjugate a).
Proof. twist_crush. Qed.

Lemma norm_one_one : norm_one GFp12.SetOne.
Proof. unfold norm_one. gfP12_crush. Qed.

Lemma norm_one_Mul a b : norm_one a -> norm_one b -> norm_one (GFp12.Mul a b).
Proof.
      unfold norm_one; intros Ha Hb. rewrite Conjugate_Mul.
      transitivity (GFp12.Mul (GFp12.Mul (GFp12.Conjugate a) a)
                              (GFp12.Mul (GFp12.Conjugate b) b)); [ring|].
      rewrite Ha, Hb. ring.
Qed.

Lemma norm_one_Conjugate a : norm_one a -> norm_one (GFp12.Conjugate a).
Proof.
      unfold norm_one; intros Ha. rewrite Conjugate_Conjugate, <- Ha. ring.
Qed.

Lemma cyclotomic_one : cyclotomic GFp12.SetOne.
Proof. split; [apply norm_one_one | twist_crush]. Qed.

Lemma cyclotomic_Mul a b : cyclotomic a -> cyclotomic b -> cyclotomic (GFp12.Mul a b).
Proof.
      intros [Na Fa] [Nb Fb]. split; [now apply norm_one_Mul|].
      rewrite FrobeniusP4_Mul, FrobeniusP2_Mul, <- Fa, <- Fb. ring.
Qed.

Lemma cyclotomic_Conjugate a : cyclotomic a -> cyclotomic (GFp12.Conjugate a).
Proof.
      intros [Na Fa]. split; [now apply norm_one_Conjugate|].
      now rewrite <- Conjugate_FrobeniusP4, <- Conjugate_Mul, Fa, Conjugate_FrobeniusP2.
Qed.

Lemma cyclotomic_pow a n : cyclotomic a -> cyclotomic (pow a n).
Proof.
      intros Ha. induction n as [|n IH] using N.peano_ind.
      - apply cyclotomic_one.
      - rewrite pow_succ. now apply cyclotomic_Mul.
Qed.

Lemma cyclotomic_SquareCyclo6 a : cyclotomic a -> cyclotomic (GFp12.SquareCyclo6 a).
Proof.
      intros Ha. rewrite SquareCyclo6_Square, Square_Mul by assumption.
      now apply cyclotomic_Mul.
Qed.

(** *** The fixed-exponent addition chain *)

Lemma SquareCyclo6_iter a k :
      cyclotomic a ->
      Nat.iter k GFp12.SquareCyclo6 a = pow a (2 ^ N.of_nat k).
Proof.
      intros Ha. induction k as [|k IH].
      - change (2 ^ N.of_nat 0)%N with 1%N. now rewrite pow_1.
      - change (Nat.iter (S k) GFp12.SquareCyclo6 a)
          with (GFp12.SquareCyclo6 (Nat.iter k GFp12.SquareCyclo6 a)).
        rewrite IH, SquareCyclo6_Square by now apply cyclotomic_pow.
        rewrite Square_Mul, <- pow_2, <- pow_mul, Nat2N.inj_succ, N.pow_succ_r'.
        f_equal. apply N.mul_comm.
Qed.

Lemma pow_Conjugate_cancel a m n :
      norm_one (pow a m) ->
      GFp12.Mul (GFp12.Conjugate (pow a m)) (pow a (m + n)) = pow a n.
Proof.
      unfold norm_one; intros H. rewrite pow_add.
      transitivity (GFp12.Mul (GFp12.Mul (GFp12.Conjugate (pow a m)) (pow a m)) (pow a n));
        [ring|]. rewrite H. ring.
Qed.

Lemma pow_snoc a n : GFp12.Mul (pow a n) a = pow a (n + 1).
Proof. rewrite pow_add, pow_1. reflexivity. Qed.

Opaque pow.

Lemma powToVCyclo6_iter a :
      GFp12.powToVCyclo6 a
      = (let t0 := Nat.iter 3 GFp12.SquareCyclo6 a in
         let t1 := Nat.iter 3 GFp12.SquareCyclo6 t0 in
         let t2 := GFp12.Conjugate t0 in
         let t2 := GFp12.Mul t2 a in
         let t2 := GFp12.Mul t2 t1 in
         let t2 := Nat.iter 7 GFp12.SquareCyclo6 t2 in
         let t2 := GFp12.Mul t2 a in
         let t2 := Nat.iter 8 GFp12.SquareCyclo6 t2 in
         GFp12.Mul t2 a).
Proof.
      cbv beta zeta iota delta [GFp12.powToVCyclo6 Nat.iter nat_rect]. reflexivity.
Qed.

Lemma powToVCyclo6_pow a : cyclotomic a -> GFp12.powToVCyclo6 a = pow a 1868033.
Proof.
      intros Ha. rewrite powToVCyclo6_iter.
      assert (E8 : Nat.iter 3 GFp12.SquareCyclo6 a = pow a 8)
        by (now rewrite SquareCyclo6_iter).
      assert (E64 : Nat.iter 3 GFp12.SquareCyclo6 (pow a 8) = pow a (8 + 56)).
      { rewrite SquareCyclo6_iter by now apply cyclotomic_pow.
        rewrite <- pow_mul. now apply f_equal. }
      assert (E57 : GFp12.Mul (GFp12.Mul (GFp12.Conjugate (pow a 8)) a) (pow a (8 + 56))
                    = pow a 57).
      { transitivity (GFp12.Mul (GFp12.Mul (GFp12.Conjugate (pow a 8)) (pow a (8 + 56))) a);
          [ring|].
        rewrite (pow_Conjugate_cancel a 8 56) by exact (proj1 (cyclotomic_pow a 8 Ha)).
        apply (pow_snoc a 56). }
      assert (E7296 : Nat.iter 7 GFp12.SquareCyclo6 (pow a 57) = pow a 7296).
      { rewrite SquareCyclo6_iter by now apply cyclotomic_pow.
        rewrite <- pow_mul. now apply f_equal. }
      assert (E7297 : GFp12.Mul (pow a 7296) a = pow a 7297) by apply (pow_snoc a 7296).
      assert (E1868032 : Nat.iter 8 GFp12.SquareCyclo6 (pow a 7297) = pow a 1868032).
      { rewrite SquareCyclo6_iter by now apply cyclotomic_pow.
        rewrite <- pow_mul. now apply f_equal. }
      cbv zeta. rewrite E8, E64, E57, E7296, E7297, E1868032. apply (pow_snoc a 1868032).
Qed.

Lemma PowToUCyclo6_pow a :
      cyclotomic a -> GFp12.PowToUCyclo6 a = pow a (1868033 ^ 3).
Proof.
      intros Ha. unfold GFp12.PowToUCyclo6. cbv zeta.
      rewrite (powToVCyclo6_pow a) by assumption.
      rewrite (powToVCyclo6_pow (pow a _)) by now apply cyclotomic_pow.
      rewrite <- pow_mul.
      rewrite (powToVCyclo6_pow (pow a _)) by now apply cyclotomic_pow.
      rewrite <- pow_mul. f_equal.
Qed.
End Twist.

(** ** Decidable equality *)

Lemma gfP2_eqb_eq a b : GFp2.eqb a b = true <-> a = b.
Proof.
    destruct a as [ax ay], b as [bx b_y]. cbv [GFp2.eqb GFp2.x GFp2.y GFp.eqb].
    rewrite andb_true_iff, !Zmod.eqb_eq. split.
    - intros [-> ->]; reflexivity.
    - intros E; injection E; auto.
Qed.

Lemma gfP6_eqb_eq a b : GFp6.eqb a b = true <-> a = b.
Proof.
    destruct a as [ax ay az], b as [bx b_y bz].
    cbv [GFp6.eqb GFp6.x GFp6.y GFp6.z].
    rewrite !andb_true_iff, !gfP2_eqb_eq. split.
    - intros [[-> ->] ->]; reflexivity.
    - intros E; injection E; auto.
Qed.

Lemma gfP12_eqb_eq a b : GFp12.eqb a b = true <-> a = b.
Proof.
    destruct a as [ax ay], b as [bx b_y]. cbv [GFp12.eqb GFp12.x GFp12.y].
    rewrite andb_true_iff, !gfP6_eqb_eq. split.
    - intros [-> ->]; reflexivity.
    - intros E; injection E; auto.
Qed.

Lemma gfP12_eqb_neq a b : GFp12.eqb a b = false <-> a <> b.
Proof.
    rewrite <- gfP12_eqb_eq. destruct (GFp12.eqb a b); split; congruence.
Qed.

Lemma gfP6_eq_dec (a b : GFp6.gfP6) : {a = b} + {a <> b}.
Proof.
    destruct (GFp6.eqb a b) eqn:E.
    - left. now apply gfP6_eqb_eq.
    - right. intros H. apply gfP6_eqb_eq in H. congruence.
Qed.

(** ** Inversion *)

Section Inversion.
Variable inv6 : GFp6.gfP6 -> GFp6.gfP6.
Hypothesis inv6_spec :
      forall n, n <> GFp6.SetZero -> GFp6.Mul (inv6 n) n = GFp6.SetOne.

Lemma gfP6_trivial :
      GFp6.SetOne = GFp6.SetZero -> forall a b : GFp6.gfP6, a = b.
Proof.
      intros E a b.
      transitivity (GFp6.Mul a GFp6.SetOne); [ring|].
      transitivity (GFp6.Mul b GFp6.SetOne); [|ring].
      rewrite E. ring.
Qed.

Lemma inv6_one : inv6 GFp6.SetOne = GFp6.SetOne.
Proof.
      destruct (gfP6_eq_dec GFp6.SetOne GFp6.SetZero) as [E|E].
      - now apply gfP6_trivial.
      - rewrite <- (inv6_spec _ E) at 2. ring.
Qed.

Lemma norm_one_norm a :
      norm_one a ->
      GFp6.Sub (GFp6.Square (GFp12.y a)) (GFp6.MulTau (GFp6.Square (GFp12.x a)))
      = GFp6.SetOne.
Proof.
      unfold norm_one. intros H. apply (f_equal GFp12.y) in H.
      destruct a as [ax ay]. unfold_gfP12.
      rewrite ?gfP6_Set_id, ?gfP6_MulTau_Mul, ?gfP6_Square_Mul in *.
      rewrite <- H. ring.
Qed.

Lemma Invert_norm_one a : norm_one a -> GFp12.Invert inv6 a = GFp12.Conjugate a.
Proof.
      intros H. unfold GFp12.Invert. cbv zeta.
      rewrite (norm_one_norm a H), inv6_one.
      destruct a as [ax ay]. gfP12_crush.
Qed.

Lemma Invert_Mul a :
      (forall r, GFp6.Square r <> GFp6.MulTau GFp6.SetOne) ->
      a <> GFp12.SetZero ->
      GFp12.Mul (GFp12.Invert inv6 a) a = GFp12.SetOne.
Proof.
      intros Hnr Ha. destruct a as [ax ay]. unfold GFp12.Invert. cbv zeta.
      cbv [GFp12.x GFp12.y].
      set (n := GFp6.Sub (GFp6.Square ay) (GFp6.MulTau (GFp6.Square ax))).
      assert (Hn : n <> GFp6.SetZero).
      { intros Hn0.
        assert (Hsq : GFp6.Mul ay ay = GFp6.Mul tau6 (GFp6.Mul ax ax)).
        { subst n. rewrite gfP6_MulTau_Mul, !gfP6_Square_Mul in Hn0.
          transitivity (GFp6.Add (GFp6.Sub (GFp6.Mul ay ay) (GFp6.Mul tau6 (GFp6.Mul ax ax)))
                                 (GFp6.Mul tau6 (GFp6.Mul ax ax))); [ring|].
          rewrite Hn0. ring. }
        destruct (gfP6_eq_dec ax GFp6.SetZero) as [Hx|Hx].
        - destruct (gfP6_eq_dec ay GFp6.SetZero) as [Hy|Hy].
          + apply Ha. subst ax ay. reflexivity.
          + assert (E10 : GFp6.SetOne = GFp6.SetZero).
            { transitivity (GFp6.Mul (GFp6.Mul (inv6 ay) ay) (GFp6.Mul (inv6 ay) ay)).
              - rewrite (inv6_spec _ Hy). ring.
              - transitivity (GFp6.Mul (GFp6.Mul (inv6 ay) (inv6 ay)) (GFp6.Mul ay ay));
                  [ring|]. rewrite Hsq, Hx. ring. }
            apply (Hnr GFp6.SetOne). now apply gfP6_trivial.
        - apply (Hnr (GFp6.Mul ay (inv6 ax))).
          rewrite gfP6_Square_Mul, gfP6_MulTau_Mul.
          transitivity (GFp6.Mul (GFp6.Mul ay ay) (GFp6.Mul (inv6 ax) (inv6 ax))); [ring|].
          rewrite Hsq.
          transitivity (GFp6.Mul tau6 (GFp6.Mul (GFp6.Mul (inv6 ax) ax)
                                                (GFp6.Mul (inv6 ax) ax))); [ring|].
          rewrite (inv6_spec _ Hx). ring. }
      pose proof (inv6_spec n Hn) as Hi.
      unfold_gfP12. rewrite ?gfP6_Set_id, ?gfP6_MulTau_Mul.
      f_equal.
      - ring.
      - rewrite <- Hi. subst n. rewrite gfP6_MulTau_Mul, !gfP6_Square_Mul. ring.
Qed.

Lemma norm_one_Invert a : norm_one a -> norm_one (GFp12.Invert inv6 a).
Proof. intros H. rewrite Invert_norm_one by assumption. now apply norm_one_Conjugate. Qed.
End Inversion.

(** ** The p-power Frobenius map *)

Lemma gfP2_Conjugate_Mul a b :
    GFp2.Conjugate (GFp2.Mul a b) = GFp2.Mul (GFp2.Conjugate a) (GFp2.Conjugate b).
Proof. gfP2_crush. Qed.

Lemma gfP2_Conjugate_Conjugate a : GFp2.Conjugate (GFp2.Conjugate a) = a.
Proof. gfP2_crush. Qed.

Section FrobeniusOrder.
Hypothesis Htab : frobenius_table_ok.

Lemma Frobenius_6 a : Nat.iter 6 GFp12.Frobenius a = GFp12.Conjugate a.
Proof.
      destruct Htab as (H1 & H2 & H4). unfold cube2, norm2 in *.
      destruct a as [[c5 c3 c1] [c4 c2 c0]].
      cbv beta iota delta [Nat.iter nat_rect]. unfold_tower.
      rewrite ?gfP2_Conjugate_Mul, ?gfP2_Conjugate_Conjugate.
      split12; ring [H1 H2 H4].
Qed.

Lemma Frobenius_12 a : Nat.iter 12 GFp12.Frobenius a = a.
Proof.
      change (Nat.iter 12 GFp12.Frobenius a)
        with (Nat.iter 6 GFp12.Frobenius (Nat.iter 6 GFp12.Frobenius a)).
      rewrite !Frobenius_6. destruct a as [ax ay]. gfP12_crush.
Qed.
End FrobeniusOrder.
End Algebra.

Section InPlaceFacts.
Context {T : Tower}.
Import InPlace.

Ltac heap_crush :=
  intros;
  repeat match goal with a : operand12 |- _ => destruct a end;
  repeat match goal with b : operand6 |- _ => destruct b end;
  cbv beta iota zeta delta
    [InPlace.Set_ InPlace.SetZero InPlace.SetOne InPlace.Conjugate InPlace.Neg
     InPlace.Frobenius InPlace.FrobeniusP2 InPlace.FrobeniusP4 InPlace.Add
     InPlace.Sub InPlace.Mul InPlace.MulScalar InPlace.Square
     InPlace.SquareCyclo6 InPlace.Exp InPlace.Invert
     load rd rdx rdy rd6 upd fx fy] in *;
  repeat match goal with
         | |- context [Nat.eqb ?a ?b] => destruct (Nat.eqb_spec a b); try lia
         | H : Cell _ <> Cell _ |- _ => exfalso; apply H; f_equal; lia
         end;
  try reflexivity.

Lemma load_Set_ h e a : load (InPlace.Set_ e a h) e = GFp12.Set_ (rd h a).
Proof. heap_crush. Qed.

Lemma load_Conjugate h e a : load (InPlace.Conjugate e a h) e = GFp12.Conjugate (rd h a).
Proof. heap_crush. Qed.

Lemma load_Neg h e a : load (InPlace.Neg e a h) e = GFp12.Neg (rd h a).
Proof. heap_crush. Qed.

Lemma load_Frobenius h e a : load (InPlace.Frobenius e a h) e = GFp12.Frobenius (rd h a).
Proof. heap_crush. Qed.

Lemma load_FrobeniusP2 h e a :
  load (InPlace.FrobeniusP2 e a h) e = GFp12.FrobeniusP2 (rd h a).
Proof. heap_crush. Qed.

Lemma load_FrobeniusP4 h e a :
  load (InPlace.FrobeniusP4 e a h) e = GFp12.FrobeniusP4 (rd h a).
Proof. heap_crush. Qed.

Lemma load_Add h e a b : load (InPlace.Add e a b h) e = GFp12.Add (rd h a) (rd h b).
Proof. heap_crush. Qed.

Lemma load_Sub h e a b : load (InPlace.Sub e a b h) e = GFp12.Sub (rd h a) (rd h b).
Proof. heap_crush. Qed.

Lemma load_Mul h e a b : load (InPlace.Mul e a b h) e = GFp12.Mul (rd h a) (rd h b).
Proof. heap_crush. Qed.

Lemma load_MulScalar h e a b :
  b <> Cell (fx e) ->
  load (InPlace.MulScalar e a b h) e = GFp12.MulScalar (rd h a) (rd6 h b).
Proof. heap_crush. Qed.

Lemma load_Square h e a : load (InPlace.Square e a h) e = GFp12.Square (rd h a).
Proof. heap_crush. Qed.

Lemma load_SquareCyclo6 h e a :
  load (InPlace.SquareCyclo6 e a h) e = GFp12.SquareCyclo6 (rd h a).
Proof.
  intros. destruct (GFp12.SquareCyclo6 (rd h a)) as [vx vy] eqn:E.
  unfold InPlace.SquareCyclo6. cbv zeta. rewrite E. heap_crush.
Qed.

Lemma load_Exp h c a power : load (InPlace.Exp c a power h) c = GFp12.Exp (rd h a) power.
Proof. unfold InPlace.Exp. cbv zeta. now rewrite load_Set_. Qed.

Lemma load_powToVCyclo6 h e a :
  load (InPlace.powToVCyclo6 e a h) e = GFp12.powToVCyclo6 (rd h a).
Proof.
  cbv beta zeta delta [InPlace.powToVCyclo6 GFp12.powToVCyclo6].
  rewrite load_Mul. reflexivity.
Qed.

Lemma rd_Obj h e : rd h (Obj e) = load h e.
Proof. reflexivity. Qed.

Lemma load_PowToUCyclo6 h e a :
  load (InPlace.PowToUCyclo6 e a h) e = GFp12.PowToUCyclo6 (rd h a).
Proof.
  cbv beta zeta delta [InPlace.PowToUCyclo6 GFp12.PowToUCyclo6].
  set (h1 := InPlace.powToVCyclo6 e a h).
  set (h2 := InPlace.powToVCyclo6 e (Obj e) h1).
  rewrite (load_powToVCyclo6 h2 e (Obj e)), (rd_Obj h2 e). subst h2.
  rewrite (load_powToVCyclo6 h1 e (Obj e)), (rd_Obj h1 e). subst h1.
  rewrite (load_powToVCyclo6 h e a). reflexivity.
Qed.

Lemma load_Invert inv6 h e a :
  load (InPlace.Invert inv6 e a h) e = GFp12.Invert inv6 (rd h a).
Proof. heap_crush. Qed.
End InPlaceFacts.

Section ToyFacts.
Context {T : Tower}.
Import NormInv.

Lemma forall_gfP_sound f :
  tw_p <> 0 -> forall_gfP f = true -> forall a, f a = true.
Proof.
  intros Hp H a. unfold forall_gfP in H. rewrite forallb_forall in H.
  apply H. now apply Zmod.in_elements.
Qed.

Lemma forall_gfP2_sound f :
  tw_p <> 0 -> forall_gfP2 f = true -> forall a, f a = true.
Proof.
  intros Hp H [ax ay]. unfold forall_gfP2 in H.
  apply (forall_gfP_sound _ Hp (forall_gfP_sound _ Hp H ax)).
Qed.

Lemma forall_gfP6_sound f :
  tw_p <> 0 -> forall_gfP6 f = true -> forall a, f a = true.
Proof.
  intros Hp H [ax ay az]. unfold forall_gfP6 in H.
  apply (forall_gfP2_sound _ Hp
           (forall_gfP2_sound _ Hp (forall_gfP2_sound _ Hp H ax) ay)).
Qed.

Lemma inv6_check_spec :
  tw_p <> 0 -> forall_gfP6 inv6_check = true ->
  forall n, n <> GFp6.SetZero -> GFp6.Mul (inv6 n) n = GFp6.SetOne.
Proof.
  intros Hp H n Hn. pose proof (forall_gfP6_sound _ Hp H n) as C.
  unfold inv6_check in C. apply orb_true_iff in C. destruct C as [C|C].
  - apply gfP6_eqb_eq in C. contradiction.
  - now apply gfP6_eqb_eq in C.
Qed.

Lemma tau_check_spec :
  tw_p <> 0 -> forall_gfP6 tau_check = true ->
  forall r, GFp6.Square r <> GFp6.MulTau GFp6.SetOne.
Proof.
  intros Hp H r E. pose proof (forall_gfP6_sound _ Hp H r) as C.
  unfold tau_check in C. apply negb_true_iff in C.
  apply gfP6_eqb_eq in E. congruence.
Qed.
End ToyFacts.

Lemma toy5_inv6_spec :
  forall n : @GFp6.gfP6 Toy5.tower,
    n <> GFp6.SetZero -> GFp6.Mul (NormInv.inv6 n) n = GFp6.SetOne.
Proof.
  apply inv6_check_spec; [discriminate|]. vm_compute. reflexivity.
Qed.

Lemma toy5_tau_nonsquare :
  forall r : @GFp6.gfP6 Toy5.tower, GFp6.Square r <> GFp6.MulTau GFp6.SetOne.
Proof.
  apply tau_check_spec; [discriminate|]. vm_compute. reflexivity.
Qed.

Section BNFacts.
#[local] Existing Instance BN256.tower.
Import BN256.

Ltac by_eqb12 := apply (proj1 (gfP12_eqb_eq _ _)); vm_compute; reflexivity.
Ltac by_neqb12 := apply (proj1 (gfP12_eqb_neq _ _)); vm_compute; reflexivity.

Lemma bn_twist_table_ok : twist_table_ok.
Proof.
  split; [|split]; apply (proj1 (Zmod.eqb_eq _ _)); vm_compute; reflexivity.
Qed.

Lemma bn_frobenius_table_ok : frobenius_table_ok.
Proof.
  split; [|split]; apply (proj1 (gfP2_eqb_eq _ _)); vm_compute; reflexivity.
Qed.

Lemma bn_gen_cyclotomic : cyclotomic BN256.gfP12Gen.
Proof. split; [unfold norm_one|]; by_eqb12. Qed.

Lemma bn_minusOne_norm_one : norm_one minusOne.
Proof. unfold norm_one; by_eqb12. Qed.

Lemma bn_order13_cyclotomic : cyclotomic order13.
Proof. split; [unfold norm_one|]; by_eqb12. Qed.

Lemma bn_order13_Exp : GFp12.Exp order13 13 = GFp12.SetOne.
Proof. by_eqb12. Qed.

Lemma bn_order13_not_one : order13 <> GFp12.SetOne.
Proof. by_neqb12. Qed.

Lemma bn_inv6_one :
  GFp6.Mul (NormInv.inv6 GFp6.SetOne) GFp6.SetOne = GFp6.SetOne.
Proof. apply (proj1 (gfP6_eqb_eq _ _)); vm_compute; reflexivity. Qed.
End BNFacts.

#[global] Opaque pow.

Section Claims.
Context {T : Tower}.
Add Ring gfP6_ring_c : gfP6_ring_theory.
Add Ring gfP12_ring_c : gfP12_ring_theory.

Lemma pow_mod_order a q n :
  q <> 0%N -> pow a q = GFp12.SetOne -> pow a n = pow a (n mod q).
Proof.
  intros Hq H. rewrite (N.div_mod' n q) at 1.
  rewrite pow_add, pow_mul, H, pow_one. ring.
Qed.

Lemma powToVCyclo6_chain a : GFp12.powToVCyclo6 a = Chain.pow_to_v a.
Proof.
  cbv beta zeta iota delta
    [GFp12.powToVCyclo6 Chain.pow_to_v Chain.t2_1868032 Chain.t2_7297
     Chain.t2_7296 Chain.t2_57 Chain.t1 Chain.t0 Chain.cyclosquare
     Nat.iter nat_rect].
  reflexivity.
Qed.

Lemma chain_values a :
  twist_table_ok -> cyclotomic a ->
  Chain.t0 a = pow a 8 /\ Chain.t1 a = pow a 64 /\ Chain.t2_57 a = pow a 57
  /\ Chain.t2_7296 a = pow a 7296 /\ Chain.t2_7297 a = pow a 7297
  /\ Chain.t2_1868032 a = pow a 1868032.
Proof.
  intros Ht Ha.
  assert (Hp : forall n, cyclotomic (pow a n)) by (intros n; exact (cyclotomic_pow Ht a n Ha)).
  assert (E8 : Chain.t0 a = pow a 8).
  { unfold Chain.t0, Chain.cyclosquare. rewrite (SquareCyclo6_iter Ht a 3 Ha). apply f_equal. reflexivity. }
  assert (E64 : Chain.t1 a = pow a 64).
  { unfold Chain.t1, Chain.cyclosquare. rewrite E8.
    rewrite (SquareCyclo6_iter Ht _ 3 (Hp 8%N)), <- pow_mul. apply f_equal. reflexivity. }
  assert (E57 : Chain.t2_57 a = pow a 57).
  { unfold Chain.t2_57. rewrite E8, E64. change 64%N with (8 + 56)%N.
    transitivity (GFp12.Mul (GFp12.Mul (GFp12.Conjugate (pow a 8)) (pow a (8 + 56))) a);
      [ring|].
    rewrite (pow_Conjugate_cancel a 8 56 (proj1 (Hp 8%N))).
    apply (pow_snoc a 56). }
  assert (E7296 : Chain.t2_7296 a = pow a 7296).
  { unfold Chain.t2_7296, Chain.cyclosquare. rewrite E57.
    rewrite (SquareCyclo6_iter Ht _ 7 (Hp 57%N)), <- pow_mul. apply f_equal. reflexivity. }
  assert (E7297 : Chain.t2_7297 a = pow a 7297).
  { unfold Chain.t2_7297. rewrite E7296. apply (pow_snoc a 7296). }
  assert (E1868032 : Chain.t2_1868032 a = pow a 1868032).
  { unfold Chain.t2_1868032, Chain.cyclosquare. rewrite E7297.
    rewrite (SquareCyclo6_iter Ht _ 8 (Hp 7297%N)), <- pow_mul. apply f_equal. reflexivity. }
  auto 10.
Qed.

(** ** The claims *)

(** C1 (as amended): for every [a] in the cyclotomic subgroup, that is of
    norm one and with [FrobeniusP4(a) * a = FrobeniusP2(a)], [PowToUCyclo6(a)]
    equals [Exp(a, 1868033^3)], and [1868033^3 = 6518589491078791937]. *)
Theorem PowToUCyclo6_Exp a :
  twist_table_ok -> cyclotomic a ->
  GFp12.PowToUCyclo6 a = GFp12.Exp a (1868033 ^ 3)
  /\ 1868033 ^ 3 = 6518589491078791937.
Proof.
  intros Ht Ha. split; [|reflexivity].
  rewrite (PowToUCyclo6_pow Ht a Ha), Exp_pow by (vm_compute; discriminate).
  apply f_equal. reflexivity.
Qed.

(** C2 (as amended): for every [a] in the cyclotomic subgroup (norm one and
    [FrobeniusP4(a) * a = FrobeniusP2(a)]), [powToVCyclo6(a)] equals
    [Exp(a, 1868033)]; it is computed by the addition chain of the
    specification, whose intermediate values are the powers 8, 64, 57, 7296,
    7297 and 1868032 of [a]. *)
Theorem powToVCyclo6_Exp a :
  twist_table_ok -> cyclotomic a ->
  GFp12.powToVCyclo6 a = Chain.pow_to_v a
  /\ Chain.t0 a = GFp12.Exp a 8
  /\ Chain.t1 a = GFp12.Exp a 64
  /\ Chain.t2_57 a = GFp12.Exp a 57
  /\ Chain.t2_7296 a = GFp12.Exp a 7296
  /\ Chain.t2_7297 a = GFp12.Exp a 7297
  /\ Chain.t2_1868032 a = GFp12.Exp a 1868032
  /\ GFp12.powToVCyclo6 a = GFp12.Exp a 1868033.
Proof.
  intros Ht Ha.
  destruct (chain_values a Ht Ha) as (E1 & E2 & E3 & E4 & E5 & E6).
  rewrite !Exp_pow by (vm_compute; discriminate).
  split; [apply powToVCyclo6_chain|].
  split; [exact E1|]. split; [exact E2|]. split; [exact E3|].
  split; [exact E4|]. split; [exact E5|]. split; [exact E6|].
  exact (powToVCyclo6_pow Ht a Ha).
Qed.

(** C3: for every [a], [Square(a)] equals [Mul(a, a)] coordinate for
    coordinate. *)
Theorem Square_eq_Mul a : GFp12.Square a = GFp12.Mul a a.
Proof. apply Square_Mul. Qed.

(** C4 (as amended): for every [a] in the cyclotomic subgroup, that is of
    norm one and with [FrobeniusP4(a) * a = FrobeniusP2(a)], the
    Granger-Scott squaring [SquareCyclo6(a)] equals [Square(a)]. *)
Theorem SquareCyclo6_eq_Square a :
  twist_table_ok -> cyclotomic a -> GFp12.SquareCyclo6 a = GFp12.Square a.
Proof. intros Ht Ha. exact (SquareCyclo6_Square Ht a Ha). Qed.

(** C5: when the inversion [inv6] of GF(p^6) inverts every non-zero element
    and tau is not a square of GF(p^6), then for every [a <> 0],
    [Mul(Invert(a), a)] is the one element. *)
Theorem Invert_inverse (inv6 : GFp6.gfP6 -> GFp6.gfP6) a :
  (forall n, n <> GFp6.SetZero -> GFp6.Mul (inv6 n) n = GFp6.SetOne) ->
  (forall r, GFp6.Square r <> GFp6.MulTau GFp6.SetOne) ->
  a <> GFp12.SetZero ->
  GFp12.Mul (GFp12.Invert inv6 a) a = GFp12.SetOne.
Proof. intros Hinv Hnr Ha. exact (Invert_Mul inv6 Hinv a Hnr Ha). Qed.

(** C6 (as amended): for every [a], applying [Frobenius] six times gives
    [Conjugate(a)], and applying it twelve times returns [a]. *)
Theorem Frobenius_order a :
  frobenius_table_ok ->
  Nat.iter 6 GFp12.Frobenius a = GFp12.Conjugate a
  /\ Nat.iter 12 GFp12.Frobenius a = a.
Proof.
  intros Ht. split; [apply (Frobenius_6 Ht) | apply (Frobenius_12 Ht)].
Qed.

(** C7: for every [a] and all non-negative [m] and [n],
    [Exp(a, m+n) = Mul(Exp(a, m), Exp(a, n))]; [Exp(a, 0)] is the one element
    and [Exp(a, 1) = a]. *)
Theorem Exp_add a m n :
  0 <= m -> 0 <= n ->
  GFp12.Exp a (m + n) = GFp12.Mul (GFp12.Exp a m) (GFp12.Exp a n)
  /\ GFp12.Exp a 0 = GFp12.SetOne
  /\ GFp12.Exp a 1 = a.
Proof.
  intros Hm Hn. rewrite !Exp_pow by lia. repeat split.
  - rewrite Z2N.inj_add by lia. apply pow_add.
  - apply pow_1.
Qed.

(** C9: for every [a] and every [b] of GF(p^6), [MulScalar(a, b)] equals
    [Mul(a, c)] for the element [c] with [x] coordinate zero and [y]
    coordinate [b]. *)
Theorem MulScalar_eq_Mul a b :
  GFp12.MulScalar a b = GFp12.Mul a {| GFp12.x := GFp6.SetZero; GFp12.y := b |}.
Proof. apply MulScalar_Mul. Qed.

(** C10 (as amended): norm one is preserved by [Mul], [Conjugate] and
    [Invert]; membership in the cyclotomic subgroup (norm one and
    [FrobeniusP4(a) * a = FrobeniusP2(a)]) is preserved by [Mul],
    [SquareCyclo6], [Conjugate], [Invert], [powToVCyclo6] and [PowToUCyclo6],
    and every power of a member is a member. *)
Theorem cyclotomic_closed (inv6 : GFp6.gfP6 -> GFp6.gfP6) a b :
  twist_table_ok ->
  GFp6.Mul (inv6 GFp6.SetOne) GFp6.SetOne = GFp6.SetOne ->
  (norm_one a -> norm_one b ->
   norm_one (GFp12.Mul a b) /\ norm_one (GFp12.Conjugate a)
   /\ norm_one (GFp12.Invert inv6 a))
  /\ (cyclotomic a -> cyclotomic b ->
      cyclotomic (GFp12.Mul a b) /\ cyclotomic (GFp12.SquareCyclo6 a)
      /\ cyclotomic (GFp12.Conjugate a) /\ cyclotomic (GFp12.Invert inv6 a)
      /\ cyclotomic (GFp12.powToVCyclo6 a) /\ cyclotomic (GFp12.PowToUCyclo6 a)
      /\ forall n, cyclotomic (pow a n)).
Proof.
  intros Ht Hi.
  assert (Hone : inv6 GFp6.SetOne = GFp6.SetOne) by (rewrite <- Hi at 2; ring).
  assert (Hinv : forall c, norm_one c -> GFp12.Invert inv6 c = GFp12.Conjugate c).
  { intros c Hc. unfold GFp12.Invert. cbv zeta.
    rewrite (norm_one_norm c Hc), Hone. destruct c as [cx cy].
    cbv [GFp12.MulScalar GFp12.Conjugate GFp12.x GFp12.y].
    rewrite gfP6_Set_id. f_equal; ring. }
  split.
  - intros Ha Hb.
    split; [exact (norm_one_Mul a b Ha Hb)|].
    split; [exact (norm_one_Conjugate a Ha)|].
    rewrite (Hinv a Ha). exact (norm_one_Conjugate a Ha).
  - intros Ha Hb.
    split; [exact (cyclotomic_Mul Ht a b Ha Hb)|].
    split; [exact (cyclotomic_SquareCyclo6 Ht a Ha)|].
    split; [exact (cyclotomic_Conjugate Ht a Ha)|].
    split; [rewrite (Hinv a (proj1 Ha)); exact (cyclotomic_Conjugate Ht a Ha)|].
    split; [rewrite (powToVCyclo6_pow Ht a Ha); exact (cyclotomic_pow Ht a _ Ha)|].
    split; [rewrite (PowToUCyclo6_pow Ht a Ha); exact (cyclotomic_pow Ht a _ Ha)|].
    intros n. exact (cyclotomic_pow Ht a n Ha).
Qed.
End Claims.

Section ClaimsInPlace.
Context {T : Tower}.
Import InPlace.

(** C8 (as amended): every method leaves in its destination the value of the
    pure function at the operand values read before the call, whether the
    destination is one of the GF(p^12) operands or a distinct object; for
    [MulScalar] this needs the GF(p^6) scalar not to be the [x] field of the
    destination. *)
Theorem in_place_alias_safe (inv6 : GFp6.gfP6 -> GFp6.gfP6) (h : heap) (e : nat)
    (a b : operand12) (s : operand6) (power : Z) :
  s <> Cell (fx e) ->
  load (InPlace.Set_ e a h) e = GFp12.Set_ (rd h a)
  /\ load (InPlace.Neg e a h) e = GFp12.Neg (rd h a)
  /\ load (InPlace.Conjugate e a h) e = GFp12.Conjugate (rd h a)
  /\ load (InPlace.Add e a b h) e = GFp12.Add (rd h a) (rd h b)
  /\ load (InPlace.Sub e a b h) e = GFp12.Sub (rd h a) (rd h b)
  /\ load (InPlace.Mul e a b h) e = GFp12.Mul (rd h a) (rd h b)
  /\ load (InPlace.MulScalar e a s h) e = GFp12.MulScalar (rd h a) (rd6 h s)
  /\ load (InPlace.Square e a h) e = GFp12.Square (rd h a)
  /\ load (InPlace.SquareCyclo6 e a h) e = GFp12.SquareCyclo6 (rd h a)
  /\ load (InPlace.Frobenius e a h) e = GFp12.Frobenius (rd h a)
  /\ load (InPlace.FrobeniusP2 e a h) e = GFp12.FrobeniusP2 (rd h a)
  /\ load (InPlace.FrobeniusP4 e a h) e = GFp12.FrobeniusP4 (rd h a)
  /\ load (InPlace.Invert inv6 e a h) e = GFp12.Invert inv6 (rd h a)
  /\ load (InPlace.Exp e a power h) e = GFp12.Exp (rd h a) power
  /\ load (InPlace.powToVCyclo6 e a h) e = GFp12.powToVCyclo6 (rd h a)
  /\ load (InPlace.PowToUCyclo6 e a h) e = GFp12.PowToUCyclo6 (rd h a).
Proof.
  intros Hs.
  split; [apply load_Set_|]. split; [apply load_Neg|].
  split; [apply load_Conjugate|]. split; [apply load_Add|].
  split; [apply load_Sub|]. split; [apply load_Mul|].
  split; [apply load_MulScalar; exact Hs|]. split; [apply load_Square|].
  split; [apply load_SquareCyclo6|]. split; [apply load_Frobenius|].
  split; [apply load_FrobeniusP2|]. split; [apply load_FrobeniusP4|].
  split; [apply load_Invert|]. split; [apply load_Exp|].
  split; [apply load_powToVCyclo6|]. apply load_PowToUCyclo6.
Qed.
End ClaimsInPlace.

(** ** Witnesses and counterexamples on the curve of the library *)

Section OnBN256.
#[local] Existing Instance BN256.tower.
Import BN256 InPlace.
Add Ring gfP12_ring_bn : gfP12_ring_theory.

Ltac by_eqb12 := apply (proj1 (gfP12_eqb_eq _ _)); vm_compute; reflexivity.
Ltac by_neqb12 := apply (proj1 (gfP12_eqb_neq _ _)); vm_compute; reflexivity.

Lemma PowToUCyclo6_Exp_witness :
  twist_table_ok /\ cyclotomic BN256.gfP12Gen
  /\ GFp12.PowToUCyclo6 BN256.gfP12Gen = GFp12.Exp BN256.gfP12Gen (1868033 ^ 3)
  /\ 1868033 ^ 3 = 6518589491078791937.
Proof.
  split; [exact bn_twist_table_ok|]. split; [exact bn_gen_cyclotomic|].
  exact (PowToUCyclo6_Exp BN256.gfP12Gen bn_twist_table_ok bn_gen_cyclotomic).
Defined.

Lemma bn_order13_pow : pow order13 13 = GFp12.SetOne.
Proof. rewrite <- bn_order13_Exp. symmetry. apply Exp_pow. discriminate. Qed.

Lemma bn_order13_separates m n :
  (m mod 13 = 5)%N -> (n mod 13 = 2)%N -> pow order13 m <> pow order13 n.
Proof.
  intros Hm Hn E.
  assert (H13 : 13%N <> 0%N) by discriminate.
  pose proof (fun k => pow_mod_order order13 13 k H13 bn_order13_pow) as R.
  rewrite (R m), (R n), Hm, Hn in E.
  assert (E3 : pow order13 3 = GFp12.SetOne).
  { transitivity (pow order13 16).
    - rewrite (R 16%N). apply f_equal. reflexivity.
    - change 16%N with (5 + 11)%N. rewrite pow_add, E, <- pow_add.
      exact bn_order13_pow. }
  apply bn_order13_not_one.
  transitivity (pow order13 27).
  - rewrite (R 27%N). symmetry. apply (pow_1 order13).
  - change 27%N with (3 * 9)%N. rewrite pow_mul, E3. apply pow_one.
Qed.

Lemma PowToUCyclo6_spec_exponent_fails :
  (norm_one minusOne
   /\ GFp12.PowToUCyclo6 minusOne <> GFp12.Exp minusOne 6521908213921992257)
  /\ (cyclotomic order13
      /\ GFp12.PowToUCyclo6 order13 <> GFp12.Exp order13 6521908213921992257)
  /\ 1868033 ^ 3 <> 6521908213921992257.
Proof.
  split; [split; [exact bn_minusOne_norm_one | by_neqb12]|].
  split; [|discriminate].
  split; [exact bn_order13_cyclotomic|].
  rewrite (PowToUCyclo6_pow bn_twist_table_ok order13 bn_order13_cyclotomic).
  rewrite Exp_pow by discriminate.
  apply bn_order13_separates; reflexivity.
Qed.

Lemma powToVCyclo6_Exp_witness :
  twist_table_ok /\ cyclotomic BN256.gfP12Gen
  /\ GFp12.powToVCyclo6 BN256.gfP12Gen = GFp12.Exp BN256.gfP12Gen 1868033.
Proof.
  split; [exact bn_twist_table_ok|]. split; [exact bn_gen_cyclotomic|].
  exact (proj2 (proj2 (proj2 (proj2 (proj2 (proj2 (proj2
    (powToVCyclo6_Exp BN256.gfP12Gen bn_twist_table_ok bn_gen_cyclotomic)))))))).
Defined.

Lemma powToVCyclo6_norm_one_fails :
  norm_one minusOne
  /\ GFp12.powToVCyclo6 minusOne <> GFp12.Exp minusOne 1868033.
Proof. split; [exact bn_minusOne_norm_one | by_neqb12]. Qed.

Lemma SquareCyclo6_eq_Square_witness :
  twist_table_ok /\ cyclotomic BN256.gfP12Gen
  /\ GFp12.SquareCyclo6 BN256.gfP12Gen = GFp12.Square BN256.gfP12Gen.
Proof.
  split; [exact bn_twist_table_ok|]. split; [exact bn_gen_cyclotomic|].
  exact (SquareCyclo6_eq_Square BN256.gfP12Gen bn_twist_table_ok bn_gen_cyclotomic).
Defined.

Lemma SquareCyclo6_norm_one_fails :
  norm_one minusOne /\ GFp12.SquareCyclo6 minusOne <> GFp12.Square minusOne.
Proof. split; [exact bn_minusOne_norm_one | by_neqb12]. Qed.

Lemma Frobenius_order_witness :
  frobenius_table_ok
  /\ Nat.iter 6 GFp12.Frobenius BN256.gfP12Gen = GFp12.Conjugate BN256.gfP12Gen
  /\ Nat.iter 12 GFp12.Frobenius BN256.gfP12Gen = BN256.gfP12Gen.
Proof.
  split; [exact bn_frobenius_table_ok|].
  exact (Frobenius_order BN256.gfP12Gen bn_frobenius_table_ok).
Defined.

Lemma Frobenius_six_not_identity : Nat.iter 6 GFp12.Frobenius omega <> omega.
Proof. by_neqb12. Qed.

Lemma Exp_add_witness :
  0 <= 2 /\ 0 <= 3
  /\ GFp12.Exp BN256.gfP12Gen (2 + 3)
     = GFp12.Mul (GFp12.Exp BN256.gfP12Gen 2) (GFp12.Exp BN256.gfP12Gen 3)
  /\ GFp12.Exp BN256.gfP12Gen 0 = GFp12.SetOne
  /\ GFp12.Exp BN256.gfP12Gen 1 = BN256.gfP12Gen.
Proof.
  split; [lia|]. split; [lia|].
  apply (Exp_add BN256.gfP12Gen 2 3); lia.
Defined.

Lemma cyclotomic_closed_witness :
  twist_table_ok
  /\ GFp6.Mul (NormInv.inv6 GFp6.SetOne) GFp6.SetOne = GFp6.SetOne
  /\ cyclotomic BN256.gfP12Gen /\ cyclotomic order13
  /\ cyclotomic (GFp12.Mul BN256.gfP12Gen order13)
  /\ cyclotomic (GFp12.SquareCyclo6 BN256.gfP12Gen)
  /\ cyclotomic (GFp12.Invert NormInv.inv6 BN256.gfP12Gen)
  /\ cyclotomic (GFp12.PowToUCyclo6 BN256.gfP12Gen).
Proof.
  split; [exact bn_twist_table_ok|]. split; [exact bn_inv6_one|].
  split; [exact bn_gen_cyclotomic|]. split; [exact bn_order13_cyclotomic|].
  destruct (cyclotomic_closed NormInv.inv6 BN256.gfP12Gen order13
              bn_twist_table_ok bn_inv6_one) as [_ H].
  destruct (H bn_gen_cyclotomic bn_order13_cyclotomic)
    as (H1 & H2 & _ & H4 & _ & H6 & _).
  split; [exact H1|]. split; [exact H2|]. split; [exact H4|]. exact H6.
Defined.

Lemma SquareCyclo6_leaves_norm_one :
  norm_one minusOne /\ ~ norm_one (GFp12.SquareCyclo6 minusOne).
Proof.
  split; [exact bn_minusOne_norm_one|]. unfold norm_one. by_neqb12.
Qed.

(** A store whose cells all hold the element 2. *)
Lemma in_place_alias_safe_witness :
  Cell (fy 0) <> Cell (fx 0)
  /\ load (InPlace.MulScalar 0 (Obj 0) (Cell (fy 0)) (fun _ => GFp6.SetOne)) 0
     = GFp12.MulScalar (rd (fun _ => GFp6.SetOne) (Obj 0))
                       (rd6 (fun _ => GFp6.SetOne) (Cell (fy 0)))
  /\ load (InPlace.PowToUCyclo6 0 (Obj 0) (fun _ => GFp6.SetOne)) 0
     = GFp12.PowToUCyclo6 (rd (fun _ => GFp6.SetOne) (Obj 0)).
Proof.
  assert (Hs : Cell (fy 0) <> Cell (fx 0)) by discriminate.
  split; [exact Hs|].
  destruct (in_place_alias_safe NormInv.inv6 (fun _ => GFp6.SetOne) 0 (Obj 0) (Obj 0)
              (Cell (fy 0)) 0 Hs)
    as (_ & _ & _ & _ & _ & _ & H7 & _ & _ & _ & _ & _ & _ & _ & _ & H16).
  split; [exact H7 | exact H16].
Defined.

Lemma MulScalar_alias_fails :
  load (InPlace.MulScalar 0 (Obj 0) (Cell (fx 0))
          (fun _ => GFp6.Add GFp6.SetOne GFp6.SetOne)) 0
  <> load (InPlace.MulScalar 1 (Obj 0) (Cell (fx 0))
             (fun _ => GFp6.Add GFp6.SetOne GFp6.SetOne)) 1.
Proof. by_neqb12. Qed.
End OnBN256.

Section OnToy5.
#[local] Existing Instance Toy5.tower.

Lemma Invert_inverse_witness :
  (forall n, n <> GFp6.SetZero -> GFp6.Mul (NormInv.inv6 n) n = GFp6.SetOne)
  /\ (forall r, GFp6.Square r <> GFp6.MulTau GFp6.SetOne)
  /\ {| GFp12.x := GFp6.SetOne; GFp12.y := GFp6.SetOne |} <> GFp12.SetZero
  /\ GFp12.Mul
       (GFp12.Invert NormInv.inv6 {| GFp12.x := GFp6.SetOne; GFp12.y := GFp6.SetOne |})
       {| GFp12.x := GFp6.SetOne; GFp12.y := GFp6.SetOne |} = GFp12.SetOne.
Proof.
  assert (Ha : {| GFp12.x := GFp6.SetOne; GFp12.y := GFp6.SetOne |} <> GFp12.SetZero)
    by (apply (proj1 (gfP12_eqb_neq _ _)); vm_compute; reflexivity).
  split; [exact toy5_inv6_spec|]. split; [exact toy5_tau_nonsquare|].
  split; [exact Ha|].
  exact (Invert_inverse NormInv.inv6 _ toy5_inv6_spec toy5_tau_nonsquare Ha).
Defined.
End OnToy5.

(** * Further properties of the code *)

Section More.
Context {T : Tower}.
Add Ring gfP_ring_m : (Zmod.ring_theory tw_p).
Add Ring gfP2_ring_m : gfP2_ring_theory.
Add Ring gfP6_ring_m : gfP6_ring_theory.
Add Ring gfP12_ring_m : gfP12_ring_theory.
Opaque pow.

(** [Add], [Sub], [Neg], [Mul] with [SetZero] and [SetOne] make GF(p^12) a
    commutative ring: addition and multiplication are associative and
    commutative with identities zero and one, multiplication distributes, and
    [Sub(a, b) = Add(a, Neg(b))]. *)
Theorem GFp12_commutative_ring :
  ring_theory GFp12.SetZero GFp12.SetOne GFp12.Add GFp12.Mul GFp12.Sub
              GFp12.Neg eq.
Proof.
  constructor; intros; try ring.
Qed.

(** [Exp] with a negative exponent does not invert: it reads the bits of the
    two's complement over the bit length of the absolute value, so
    [Exp(a, power)] is [Exp(a, 2^BitLen(power) + power)]. *)
Theorem Exp_negative a power :
  power < 0 ->
  GFp12.Exp a power = GFp12.Exp a (2 ^ Z.of_nat (GFp12.BitLen power) + power)
  /\ 0 <= 2 ^ Z.of_nat (GFp12.BitLen power) + power.
Proof.
  intros Hneg.
  assert (Hb : - power < 2 ^ Z.of_nat (GFp12.BitLen power)).
  { replace (GFp12.BitLen power) with (GFp12.BitLen (- power))
      by (destruct power; reflexivity).
    apply BitLen_bound. lia. }
  assert (Hp : 0 < 2 ^ Z.of_nat (GFp12.BitLen power)) by (apply Z.pow_pos_nonneg; lia).
  split; [|lia].
  rewrite (Exp_pow a (2 ^ Z.of_nat (GFp12.BitLen power) + power)) by lia.
  unfold GFp12.Exp. rewrite gfP12_Set_id, ExpLoop_pow, pow_one.
  replace (power mod 2 ^ Z.of_nat (GFp12.BitLen power))
    with (2 ^ Z.of_nat (GFp12.BitLen power) + power).
  - ring.
  - symmetry. rewrite <- (Z.mod_small (2 ^ Z.of_nat (GFp12.BitLen power) + power)
                            (2 ^ Z.of_nat (GFp12.BitLen power))) by lia.
    rewrite Z.add_comm, Z.add_mod by lia.
    rewrite Z.mod_same, Z.add_0_r, Z.mod_mod by lia. reflexivity.
Qed.

(** For non-negative exponents [Exp] is multiplicative in the exponent and
    in the base: [Exp(a, m*n) = Exp(Exp(a, m), n)] and
    [Exp(Mul(a, b), n) = Mul(Exp(a, n), Exp(b, n))]. *)
Theorem Exp_mul a b m n :
  0 <= m -> 0 <= n ->
  GFp12.Exp a (m * n) = GFp12.Exp (GFp12.Exp a m) n
  /\ GFp12.Exp (GFp12.Mul a b) n = GFp12.Mul (GFp12.Exp a n) (GFp12.Exp b n).
Proof.
  intros Hm Hn. rewrite !Exp_pow by nia. split.
  - rewrite Z2N.inj_mul by lia. apply pow_mul.
  - apply pow_Mul.
Qed.

(** [Invert] does not guard against zero: whatever the inversion of GF(p^6)
    returns on zero, [Invert(0)] is zero. *)
Theorem Invert_zero (inv6 : GFp6.gfP6 -> GFp6.gfP6) :
  GFp12.Invert inv6 GFp12.SetZero = GFp12.SetZero.
Proof.
  cbv [GFp12.Invert GFp12.MulScalar GFp12.SetZero GFp12.x GFp12.y].
  rewrite gfP6_Set_id. f_equal; ring.
Qed.

(** [gfP4Square] returns what its comments say: [retX = 2xy] and
    [retY = x^2*xi + y^2], the square of [x*u + y] with [u^2 = xi]. *)
Theorem gfP4Square_value x y :
  GFp12.gfP4Square x y
  = (GFp2.Add (GFp2.Mul x y) (GFp2.Mul x y),
     GFp2.Add (GFp2.MulXi (GFp2.Square x)) (GFp2.Square y)).
Proof.
  unfold GFp12.gfP4Square. cbv zeta.
  rewrite ?gfP2_MulXi_Mul, ?gfP2_Square_Mul. f_equal; ring.
Qed.

(** On elements of norm one [Invert] is [Conjugate], provided the inversion
    of GF(p^6) inverts one. *)
Theorem Invert_eq_Conjugate (inv6 : GFp6.gfP6 -> GFp6.gfP6) a :
  GFp6.Mul (inv6 GFp6.SetOne) GFp6.SetOne = GFp6.SetOne ->
  norm_one a ->
  GFp12.Invert inv6 a = GFp12.Conjugate a.
Proof.
  intros Hi Ha.
  assert (Hone : inv6 GFp6.SetOne = GFp6.SetOne) by (rewrite <- Hi at 2; ring).
  unfold GFp12.Invert. cbv zeta.
  rewrite (norm_one_norm a Ha), Hone. destruct a as [ax ay].
  cbv [GFp12.MulScalar GFp12.Conjugate GFp12.x GFp12.y].
  rewrite gfP6_Set_id. f_equal; ring.
Qed.

(** On every input, with no precondition, [SquareCyclo6(a)] differs from
    [Square(a)] by twice
    [FrobeniusP4(a) * FrobeniusP4(FrobeniusP4(a)) - Conjugate(a)]. *)
Theorem SquareCyclo6_defect a :
  twist_table_ok ->
  GFp12.SquareCyclo6 a
  = GFp12.Add (GFp12.Square a)
      (GFp12.Sub
         (GFp12.Add
            (GFp12.Mul (GFp12.FrobeniusP4 a) (GFp12.FrobeniusP4 (GFp12.FrobeniusP4 a)))
            (GFp12.Mul (GFp12.FrobeniusP4 a) (GFp12.FrobeniusP4 (GFp12.FrobeniusP4 a))))
         (GFp12.Add (GFp12.Conjugate a) (GFp12.Conjugate a))).
Proof.
  intros Ht. pose proof (SquareCyclo6_Square_gap Ht a) as G.
  set (s := GFp12.SquareCyclo6 a) in *. set (q := GFp12.Square a) in *.
  set (m := GFp12.Mul _ _) in *. set (c := GFp12.Conjugate a) in *.
  transitivity (GFp12.Sub (GFp12.Add s (GFp12.Add c c)) (GFp12.Add c c)); [ring|].
  rewrite G. ring.
Qed.

Lemma IsZero_iff e : GFp12.IsZero e = true <-> e = GFp12.SetZero.
Proof.
  destruct e as [ex ey].
  cbv [GFp12.IsZero GFp6.IsZero GFp12.x GFp12.y GFp12.SetZero].
  rewrite !andb_true_iff, !gfP6_eqb_eq. split.
  - intros [-> ->]; reflexivity.
  - intros E; injection E; auto.
Qed.

Lemma IsOne_iff e : GFp12.IsOne e = true <-> e = GFp12.SetOne.
Proof.
  destruct e as [ex ey].
  cbv [GFp12.IsOne GFp6.IsZero GFp6.IsOne GFp12.x GFp12.y GFp12.SetOne].
  rewrite !andb_true_iff, !gfP6_eqb_eq. split.
  - intros [-> ->]; reflexivity.
  - intros E; injection E; auto.
Qed.

(** [IsZero] and [IsOne] decide equality with the zero and the one
    element. *)
Theorem IsZero_IsOne_spec e :
  (GFp12.IsZero e = true <-> e = GFp12.SetZero)
  /\ (GFp12.IsOne e = true <-> e = GFp12.SetOne).
Proof. split; [apply IsZero_iff | apply IsOne_iff]. Qed.

(** [Conjugate] is an involution that respects addition and multiplication
    and fixes one. *)
Theorem Conjugate_automorphism a b :
  GFp12.Conjugate (GFp12.Conjugate a) = a
  /\ GFp12.Conjugate (GFp12.Add a b)
     = GFp12.Add (GFp12.Conjugate a) (GFp12.Conjugate b)
  /\ GFp12.Conjugate (GFp12.Mul a b)
     = GFp12.Mul (GFp12.Conjugate a) (GFp12.Conjugate b)
  /\ GFp12.Conjugate GFp12.SetOne = GFp12.SetOne.
Proof.
  split; [apply Conjugate_Conjugate|]. split; [|split; [apply Conjugate_Mul|]].
  - destruct a, b. cbv [GFp12.Conjugate GFp12.Add GFp12.x GFp12.y].
    rewrite !gfP6_Set_id. f_equal; ring.
  - cbv [GFp12.Conjugate GFp12.SetOne GFp12.x GFp12.y].
    rewrite gfP6_Set_id. f_equal; ring.
Qed.

(** [MulScalar] is linear over GF(p^6): it distributes over [Add], commutes
    with [Mul], composes through the product of the scalars, and the scalar
    one changes nothing. *)
Theorem MulScalar_linear a a' b c :
  GFp12.MulScalar (GFp12.Add a a') b
  = GFp12.Add (GFp12.MulScalar a b) (GFp12.MulScalar a' b)
  /\ GFp12.MulScalar (GFp12.Mul a a') b = GFp12.Mul a (GFp12.MulScalar a' b)
  /\ GFp12.MulScalar (GFp12.MulScalar a b) c = GFp12.MulScalar a (GFp6.Mul b c)
  /\ GFp12.MulScalar a GFp6.SetOne = a.
Proof.
  destruct a as [ax ay], a' as [ax' ay'].
  cbv [GFp12.MulScalar GFp12.Add GFp12.Mul GFp12.x GFp12.y].
  rewrite ?gfP6_Set_id, ?gfP6_MulTau_Mul.
  repeat split; f_equal; ring.
Qed.

Ltac unfold_tower_m :=
  cbv [GFp12.Add GFp12.Sub GFp12.Neg GFp12.Mul GFp12.Square GFp12.MulScalar
       GFp12.Conjugate GFp12.SetZero GFp12.SetOne GFp12.Set_
       GFp12.Frobenius GFp12.FrobeniusP2 GFp12.FrobeniusP4
       GFp12.x GFp12.y
       GFp6.Add GFp6.Sub GFp6.Neg GFp6.Mul GFp6.Square GFp6.MulTau
       GFp6.MulScalar GFp6.MulGFP GFp6.SetZero GFp6.SetOne GFp6.Set_
       GFp6.Frobenius GFp6.FrobeniusP2 GFp6.FrobeniusP4
       GFp6.x GFp6.y GFp6.z] in *;
  rewrite ?gfP2_Set_id, ?gfP2_MulXi_Mul, ?gfP2_Square_Mul, ?gfP2_MulScalar_Mul in *.

Ltac split12_m :=
  match goal with
  | |- GFp12.mk _ _ = GFp12.mk _ _ => f_equal; split12_m
  | |- GFp6.mk _ _ _ = GFp6.mk _ _ _ => f_equal; split12_m
  | _ => idtac
  end.

Ltac destruct12 :=
  repeat match goal with a : GFp12.gfP12 |- _ => destruct a end;
  repeat match goal with a : GFp6.gfP6 |- _ => destruct a end.

(** [FrobeniusP2] and [FrobeniusP4] respect addition and multiplication and
    fix one. *)
Theorem FrobeniusP2_P4_homomorphism a b :
  twist_table_ok ->
  GFp12.FrobeniusP2 (GFp12.Mul a b)
  = GFp12.Mul (GFp12.FrobeniusP2 a) (GFp12.FrobeniusP2 b)
  /\ GFp12.FrobeniusP2 (GFp12.Add a b)
     = GFp12.Add (GFp12.FrobeniusP2 a) (GFp12.FrobeniusP2 b)
  /\ GFp12.FrobeniusP2 GFp12.SetOne = GFp12.SetOne
  /\ GFp12.FrobeniusP4 (GFp12.Mul a b)
     = GFp12.Mul (GFp12.FrobeniusP4 a) (GFp12.FrobeniusP4 b)
  /\ GFp12.FrobeniusP4 (GFp12.Add a b)
     = GFp12.Add (GFp12.FrobeniusP4 a) (GFp12.FrobeniusP4 b)
  /\ GFp12.FrobeniusP4 GFp12.SetOne = GFp12.SetOne.
Proof.
  intros Ht.
  split; [apply (FrobeniusP2_Mul Ht)|].
  split; [destruct12; unfold_tower_m; split12_m; ring|].
  split; [unfold_tower_m; split12_m; ring|].
  split; [apply (FrobeniusP4_Mul Ht)|].
  split; [destruct12; unfold_tower_m; split12_m; ring|].
  unfold_tower_m; split12_m; ring.
Qed.

(** The maps compose as powers of the p^2-power map: [FrobeniusP2] twice is
    [FrobeniusP4], [FrobeniusP4] and [FrobeniusP2] commute and compose to
    [Conjugate], and [FrobeniusP4] three times is the identity. *)
Theorem FrobeniusP2_P4_compose a :
  twist_table_ok ->
  GFp12.FrobeniusP2 (GFp12.FrobeniusP2 a) = GFp12.FrobeniusP4 a
  /\ GFp12.FrobeniusP4 (GFp12.FrobeniusP2 a) = GFp12.FrobeniusP2 (GFp12.FrobeniusP4 a)
  /\ GFp12.FrobeniusP4 (GFp12.FrobeniusP2 a) = GFp12.Conjugate a
  /\ GFp12.FrobeniusP4 (GFp12.FrobeniusP4 (GFp12.FrobeniusP4 a)) = a.
Proof.
  intros Ht.
  pose proof (FrobeniusP2_FrobeniusP2 Ht) as E22.
  pose proof (FrobeniusP4_FrobeniusP2 Ht) as E42.
  split; [apply E22|].
  split; [rewrite <- (E22 (GFp12.FrobeniusP2 a)), <- (E22 a); reflexivity|].
  split; [apply E42|].
  rewrite <- (E22 a) at 1. rewrite (E42 (GFp12.FrobeniusP2 a)).
  rewrite <- (Conjugate_FrobeniusP4 Ht), E42. apply Conjugate_Conjugate.
Qed.

(** [Exp] with a non-negative exponent stays in the cyclotomic subgroup. *)
Theorem Exp_cyclotomic a n :
  twist_table_ok -> cyclotomic a -> 0 <= n -> cyclotomic (GFp12.Exp a n).
Proof.
  intros Ht Ha Hn. rewrite Exp_pow by assumption. exact (cyclotomic_pow Ht a _ Ha).
Qed.

Lemma gfP2_Conjugate_Add a b :
  GFp2.Conjugate (GFp2.Add a b) = GFp2.Add (GFp2.Conjugate a) (GFp2.Conjugate b).
Proof.
  destruct a, b. cbv [GFp2.Conjugate GFp2.Add GFp2.x GFp2.y GFp.Add GFp.Neg].
  f_equal; ring.
Qed.

Lemma gfP2_Conjugate_one : GFp2.Conjugate GFp2.SetOne = GFp2.SetOne.
Proof.
  cbv [GFp2.Conjugate GFp2.SetOne GFp2.x GFp2.y GFp.zero GFp.one GFp.Neg].
  f_equal; ring.
Qed.

Lemma gfP2_Conjugate_zero : GFp2.Conjugate GFp2.SetZero = GFp2.SetZero.
Proof.
  cbv [GFp2.Conjugate GFp2.SetZero GFp2.x GFp2.y GFp.zero GFp.Neg].
  f_equal; ring.
Qed.

(** [Frobenius] respects addition and multiplication and fixes one. *)
Theorem Frobenius_homomorphism a b :
  frobenius_powers_ok ->
  GFp12.Frobenius (GFp12.Mul a b)
  = GFp12.Mul (GFp12.Frobenius a) (GFp12.Frobenius b)
  /\ GFp12.Frobenius (GFp12.Add a b)
     = GFp12.Add (GFp12.Frobenius a) (GFp12.Frobenius b)
  /\ GFp12.Frobenius GFp12.SetOne = GFp12.SetOne.
Proof.
  intros (H2 & H4 & H6). unfold pow6_2, cube2 in H6.
  set (g := Consts.xiToPMinus1Over6) in *.
  set (xb := GFp2.Conjugate GFp2.xi) in *.
  assert (Hxb : xb = GFp2.Mul (GFp2.Mul (GFp2.Mul g (GFp2.Mul g g))
                                        (GFp2.Mul g (GFp2.Mul g g))) GFp2.xi)
    by (symmetry; exact H6).
  split; [|split].
  - destruct12. unfold_tower_m.
    rewrite ?gfP2_Conjugate_Add, ?gfP2_Conjugate_Mul, ?gfP2_Conjugate_Add,
      ?gfP2_Conjugate_Mul.
    fold xb. rewrite H4, H2. fold g. rewrite Hxb. split12_m; ring.
  - destruct12. unfold_tower_m. rewrite ?gfP2_Conjugate_Add.
    rewrite H4, H2. split12_m; ring.
  - unfold_tower_m. rewrite ?gfP2_Conjugate_one, ?gfP2_Conjugate_zero.
    split12_m; ring.
Qed.

(** [Frobenius] applied twice is [FrobeniusP2]. *)
Theorem Frobenius_twice a :
  frobenius_powers_ok -> frobenius_norm_ok -> twist_table_ok ->
  GFp12.Frobenius (GFp12.Frobenius a) = GFp12.FrobeniusP2 a.
Proof.
  intros (H2 & H4 & _) Hn (_ & HB & HA). unfold frobenius_norm_ok, norm2 in Hn.
  destruct12. unfold_tower_m.
  rewrite ?gfP2_Conjugate_Mul, ?gfP2_Conjugate_Conjugate.
  rewrite HA, HB, !embed_Mul, <- Hn, H4, H2.
  rewrite ?gfP2_Conjugate_Mul.
  split12_m; ring.
Qed.

Lemma gfP12_trivial :
  GFp12.SetOne = GFp12.SetZero -> forall a b : GFp12.gfP12, a = b.
Proof.
  intros E a b.
  transitivity (GFp12.Mul a GFp12.SetOne); [ring|].
  transitivity (GFp12.Mul b GFp12.SetOne); [|ring].
  rewrite E. ring.
Qed.

Lemma inverse_unique a b c :
  GFp12.Mul b a = GFp12.SetOne -> GFp12.Mul c a = GFp12.SetOne -> b = c.
Proof.
  intros Hb Hc.
  transitivity (GFp12.Mul b (GFp12.Mul c a)); [rewrite Hc; ring|].
  transitivity (GFp12.Mul c (GFp12.Mul b a)); [ring|]. rewrite Hb. ring.
Qed.

Lemma inverse_nonzero a b :
  a <> GFp12.SetZero -> GFp12.Mul b a = GFp12.SetOne -> b <> GFp12.SetZero.
Proof.
  intros Ha Hb E. apply Ha. apply gfP12_trivial.
  rewrite <- Hb, E. ring.
Qed.

(** With an inversion of GF(p^6) that inverts every non-zero element and tau
    not a square, [Invert] is an involution on non-zero elements and sends a
    product of non-zero elements to the product of the inverses. *)
Theorem Invert_involutive (inv6 : GFp6.gfP6 -> GFp6.gfP6) a b :
  (forall n, n <> GFp6.SetZero -> GFp6.Mul (inv6 n) n = GFp6.SetOne) ->
  (forall r, GFp6.Square r <> GFp6.MulTau GFp6.SetOne) ->
  a <> GFp12.SetZero -> b <> GFp12.SetZero ->
  GFp12.Invert inv6 (GFp12.Invert inv6 a) = a
  /\ GFp12.Invert inv6 (GFp12.Mul a b)
     = GFp12.Mul (GFp12.Invert inv6 a) (GFp12.Invert inv6 b).
Proof.
  intros Hinv Hnr Ha Hb.
  pose proof (Invert_Mul inv6 Hinv a Hnr Ha) as Ia.
  pose proof (Invert_Mul inv6 Hinv b Hnr Hb) as Ib.
  split.
  - pose proof (inverse_nonzero a _ Ha Ia) as Hia.
    pose proof (Invert_Mul inv6 Hinv _ Hnr Hia) as Iia.
    apply (inverse_unique (GFp12.Invert inv6 a)); [exact Iia|].
    rewrite <- Ia. ring.
  - assert (Hab : GFp12.Mul a b <> GFp12.SetZero).
    { intros E. apply Hb.
      transitivity (GFp12.Mul (GFp12.Mul (GFp12.Invert inv6 a) a) b); [rewrite Ia; ring|].
      transitivity (GFp12.Mul (GFp12.Invert inv6 a) (GFp12.Mul a b)); [ring|].
      rewrite E. ring. }
    apply (inverse_unique (GFp12.Mul a b)).
    + exact (Invert_Mul inv6 Hinv _ Hnr Hab).
    + transitivity (GFp12.Mul (GFp12.Mul (GFp12.Invert inv6 a) a)
                              (GFp12.Mul (GFp12.Invert inv6 b) b)); [ring|].
      rewrite Ia, Ib. ring.
Qed.
End More.

Section Frame.
Context {T : Tower}.
Import InPlace.

Ltac frame_crush :=
  intros;
  cbv beta iota zeta delta
    [InPlace.Set_ InPlace.SetZero InPlace.SetOne InPlace.Conjugate InPlace.Neg
     InPlace.Frobenius InPlace.FrobeniusP2 InPlace.FrobeniusP4 InPlace.Add
     InPlace.Sub InPlace.Mul InPlace.MulScalar InPlace.Square
     InPlace.SquareCyclo6 InPlace.Exp InPlace.Invert InPlace.powToVCyclo6
     upd fx fy] in *;
  repeat match goal with
         | |- context [Nat.eqb ?a ?b] => destruct (Nat.eqb_spec a b); try lia
         end;
  try reflexivity.

Lemma frame_powToVCyclo6 h e a l :
  l <> fx e -> l <> fy e -> InPlace.powToVCyclo6 e a h l = h l.
Proof. frame_crush. Qed.

(** A method writes the two cells of its destination and no other cell of
    the store. *)
Theorem in_place_frame (inv6 : GFp6.gfP6 -> GFp6.gfP6) (h : heap) (e : nat)
    (a b : operand12) (s : operand6) (power : Z) (l : nat) :
  l <> fx e -> l <> fy e ->
  InPlace.Set_ e a h l = h l
  /\ InPlace.SetZero e h l = h l
  /\ InPlace.SetOne e h l = h l
  /\ InPlace.Neg e a h l = h l
  /\ InPlace.Conjugate e a h l = h l
  /\ InPlace.Add e a b h l = h l
  /\ InPlace.Sub e a b h l = h l
  /\ InPlace.Mul e a b h l = h l
  /\ InPlace.MulScalar e a s h l = h l
  /\ InPlace.Square e a h l = h l
  /\ InPlace.SquareCyclo6 e a h l = h l
  /\ InPlace.Frobenius e a h l = h l
  /\ InPlace.FrobeniusP2 e a h l = h l
  /\ InPlace.FrobeniusP4 e a h l = h l
  /\ InPlace.Invert inv6 e a h l = h l
  /\ InPlace.Exp e a power h l = h l
  /\ InPlace.powToVCyclo6 e a h l = h l
  /\ InPlace.PowToUCyclo6 e a h l = h l.
Proof.
  intros Hx Hy.
  assert (HV : forall a' h', InPlace.powToVCyclo6 e a' h' l = h' l)
    by (intros; now apply frame_powToVCyclo6).
  repeat (split; [solve [frame_crush]|]).
  unfold InPlace.PowToUCyclo6. cbv zeta. now rewrite !HV.
Qed.

End Frame.

Section MoreOnBN256.
#[local] Existing Instance BN256.tower.
Import BN256 InPlace.

Lemma bn_frobenius_powers_ok : frobenius_powers_ok.
Proof.
  split; [|split]; apply (proj1 (gfP2_eqb_eq _ _)); vm_compute; reflexivity.
Qed.

Lemma bn_frobenius_norm_ok : frobenius_norm_ok.
Proof. apply (proj1 (gfP2_eqb_eq _ _)); vm_compute; reflexivity. Qed.

Lemma Exp_negative_witness :
  -3 < 0
  /\ GFp12.Exp BN256.gfP12Gen (-3)
     = GFp12.Exp BN256.gfP12Gen (2 ^ Z.of_nat (GFp12.BitLen (-3)) + -3).
Proof.
  assert (H : -3 < 0) by lia.
  split; [exact H|]. exact (proj1 (Exp_negative BN256.gfP12Gen (-3) H)).
Defined.

Lemma Exp_mul_witness :
  0 <= 2 /\ 0 <= 3
  /\ GFp12.Exp BN256.gfP12Gen (2 * 3) = GFp12.Exp (GFp12.Exp BN256.gfP12Gen 2) 3.
Proof.
  assert (H2 : 0 <= 2) by lia. assert (H3 : 0 <= 3) by lia.
  split; [exact H2|]. split; [exact H3|].
  exact (proj1 (Exp_mul BN256.gfP12Gen BN256.gfP12Gen 2 3 H2 H3)).
Defined.

Lemma Invert_eq_Conjugate_witness :
  GFp6.Mul (NormInv.inv6 GFp6.SetOne) GFp6.SetOne = GFp6.SetOne
  /\ norm_one BN256.gfP12Gen
  /\ GFp12.Invert NormInv.inv6 BN256.gfP12Gen = GFp12.Conjugate BN256.gfP12Gen.
Proof.
  split; [exact bn_inv6_one|]. split; [exact (proj1 bn_gen_cyclotomic)|].
  exact (Invert_eq_Conjugate NormInv.inv6 BN256.gfP12Gen bn_inv6_one
           (proj1 bn_gen_cyclotomic)).
Defined.

Lemma SquareCyclo6_defect_witness :
  twist_table_ok
  /\ GFp12.SquareCyclo6 omega
     = GFp12.Add (GFp12.Square omega)
         (GFp12.Sub
            (GFp12.Add
               (GFp12.Mul (GFp12.FrobeniusP4 omega)
                          (GFp12.FrobeniusP4 (GFp12.FrobeniusP4 omega)))
               (GFp12.Mul (GFp12.FrobeniusP4 omega)
                          (GFp12.FrobeniusP4 (GFp12.FrobeniusP4 omega))))
            (GFp12.Add (GFp12.Conjugate omega) (GFp12.Conjugate omega))).
Proof.
  split; [exact bn_twist_table_ok|].
  exact (SquareCyclo6_defect omega bn_twist_table_ok).
Defined.

Lemma FrobeniusP2_P4_homomorphism_witness :
  twist_table_ok
  /\ GFp12.FrobeniusP2 (GFp12.Mul BN256.gfP12Gen omega)
     = GFp12.Mul (GFp12.FrobeniusP2 BN256.gfP12Gen) (GFp12.FrobeniusP2 omega).
Proof.
  split; [exact bn_twist_table_ok|].
  exact (proj1 (FrobeniusP2_P4_homomorphism BN256.gfP12Gen omega bn_twist_table_ok)).
Defined.

Lemma FrobeniusP2_P4_compose_witness :
  twist_table_ok
  /\ GFp12.FrobeniusP2 (GFp12.FrobeniusP2 omega) = GFp12.FrobeniusP4 omega.
Proof.
  split; [exact bn_twist_table_ok|].
  exact (proj1 (FrobeniusP2_P4_compose omega bn_twist_table_ok)).
Defined.

Lemma Exp_cyclotomic_witness :
  twist_table_ok /\ cyclotomic BN256.gfP12Gen /\ 0 <= 5
  /\ cyclotomic (GFp12.Exp BN256.gfP12Gen 5).
Proof.
  split; [exact bn_twist_table_ok|]. split; [exact bn_gen_cyclotomic|].
  assert (H5 : 0 <= 5) by lia.
  split; [exact H5|].
  exact (Exp_cyclotomic BN256.gfP12Gen 5 bn_twist_table_ok bn_gen_cyclotomic H5).
Defined.

Lemma Frobenius_homomorphism_witness :
  frobenius_powers_ok
  /\ GFp12.Frobenius (GFp12.Mul BN256.gfP12Gen omega)
     = GFp12.Mul (GFp12.Frobenius BN256.gfP12Gen) (GFp12.Frobenius omega).
Proof.
  split; [exact bn_frobenius_powers_ok|].
  exact (proj1 (Frobenius_homomorphism BN256.gfP12Gen omega bn_frobenius_powers_ok)).
Defined.

Lemma Frobenius_twice_witness :
  frobenius_powers_ok /\ frobenius_norm_ok /\ twist_table_ok
  /\ GFp12.Frobenius (GFp12.Frobenius BN256.gfP12Gen)
     = GFp12.FrobeniusP2 BN256.gfP12Gen.
Proof.
  split; [exact bn_frobenius_powers_ok|]. split; [exact bn_frobenius_norm_ok|].
  split; [exact bn_twist_table_ok|].
  exact (Frobenius_twice BN256.gfP12Gen bn_frobenius_powers_ok bn_frobenius_norm_ok
           bn_twist_table_ok).
Defined.

Lemma in_place_frame_witness :
  (5 <> fx 0)%nat /\ (5 <> fy 0)%nat
  /\ InPlace.Mul 0 (Obj 0) (Obj 1) (fun _ => GFp6.SetOne) 5%nat = GFp6.SetOne.
Proof.
  assert (Hx : (5 <> fx 0)%nat) by discriminate.
  assert (Hy : (5 <> fy 0)%nat) by discriminate.
  split; [exact Hx|]. split; [exact Hy|].
  destruct (in_place_frame NormInv.inv6 (fun _ => GFp6.SetOne) 0 (Obj 0) (Obj 1)
              (Tmp6 GFp6.SetOne) 0 5%nat Hx Hy)
    as (_ & _ & _ & _ & _ & _ & _ & H8 & _).
  exact H8.
Defined.
End MoreOnBN256.

Section MoreOnToy5.
#[local] Existing Instance Toy5.tower.

Lemma Invert_involutive_witness :
  (forall n, n <> GFp6.SetZero -> GFp6.Mul (NormInv.inv6 n) n = GFp6.SetOne)
  /\ (forall r, GFp6.Square r <> GFp6.MulTau GFp6.SetOne)
  /\ {| GFp12.x := GFp6.SetOne; GFp12.y := GFp6.SetOne |} <> GFp12.SetZero
  /\ GFp12.Invert NormInv.inv6
       (GFp12.Invert NormInv.inv6 {| GFp12.x := GFp6.SetOne; GFp12.y := GFp6.SetOne |})
     = {| GFp12.x := GFp6.SetOne; GFp12.y := GFp6.SetOne |}.
Proof.
  assert (Ha : {| GFp12.x := GFp6.SetOne; GFp12.y := GFp6.SetOne |} <> GFp12.SetZero)
    by (apply (proj1 (gfP12_eqb_neq _ _)); vm_compute; reflexivity).
  split; [exact toy5_inv6_spec|]. split; [exact toy5_tau_nonsquare|].
  split; [exact Ha|].
  exact (proj1 (Invert_involutive NormInv.inv6 _ _ toy5_inv6_spec toy5_tau_nonsquare
                  Ha Ha)).
Defined.
End MoreOnToy5.
